(** * Wordle Wars: the per-client game state machine of [WordleWars.vue]

    A shallow embedding of the script part of [src/WordleWars.vue]: the
    reactive variables of the component become the fields of a [Client]
    record, every function of the script becomes a function on [Client], and
    a JavaScript [TypeError] becomes the [Throw] outcome.  The theorems at
    the end of the file are about these functions. *)

From stdpp Require Import base decidable option list strings gmap finite pretty.
From Stdlib Require Import ZArith Lia.

Open Scope string_scope.
Open Scope list_scope.

(** ** Enumerations *)

(** Modelled from the spec: the declaration of the [GameState] enum lives in
    [src/types.ts], which is not among the sources.  Its members are the
    stages the spec lists in order, CONNECTING, INTRO, WAITING, READY,
    PLAYING, COMPLETE, SCORES; they are also exactly the members that
    [WordleWars.vue] names. *)
Inductive GameState :=
  | CONNECTING | INTRO | WAITING | READY | PLAYING | COMPLETE | SCORES.

(** Modelled from the spec: the [LetterState] enum is declared in
    [src/types.ts] too; the spec does not list its members, so it has the
    four that the components name.  [INITIAL] is the falsy one: the mini
    board tests [tile.state && 'revealed']. *)
Inductive LetterState := INITIAL | CORRECT | PRESENT | ABSENT.

#[global] Instance GameState_eq_dec : EqDecision GameState.
Proof. solve_decision. Defined.

#[global] Instance LetterState_eq_dec : EqDecision LetterState.
Proof. solve_decision. Defined.

Definition allGameStates : list GameState :=
  [CONNECTING; INTRO; WAITING; READY; PLAYING; COMPLETE; SCORES].

Definition allLetterStates : list LetterState :=
  [INITIAL; CORRECT; PRESENT; ABSENT].

#[global] Instance GameState_finite : Finite GameState.
Proof.
  refine {| enum := allGameStates |}.
  - apply (bool_decide_unpack _). by vm_compute.
  - intros []; unfold allGameStates; set_solver.
Defined.

#[global] Instance LetterState_finite : Finite LetterState.
Proof.
  refine {| enum := allLetterStates |}.
  - apply (bool_decide_unpack _). by vm_compute.
  - intros []; unfold allLetterStates; set_solver.
Defined.

(** Position of a stage in the order the spec gives. *)
Definition stageIndex (s : GameState) : nat :=
  match s with
  | CONNECTING => 0 | INTRO => 1 | WAITING => 2 | READY => 3
  | PLAYING => 4 | COMPLETE => 5 | SCORES => 6
  end.

(** ** JavaScript values held in a presence *)

(** A score counter.  [currentScore[state] += 1] on a key that is not there
    adds one to [undefined], which is [NaN]; the counts themselves are small
    naturals, exactly representable as JavaScript numbers. *)
Inductive JsCount := Num (n : nat) | NaN.

#[global] Instance JsCount_eq_dec : EqDecision JsCount.
Proof. solve_decision. Defined.

(** [timeFinished]: [Infinity] until the game is complete, then the
    millisecond timestamp [Date.now()] returned. *)
Inductive JsTime := Infinity | Millis (t : Z).

#[global] Instance JsTime_eq_dec : EqDecision JsTime.
Proof. solve_decision. Defined.

Definition isFinite (t : JsTime) : bool :=
  match t with Infinity => false | Millis _ => true end.

(** Modelled from the spec: the type of a tile is declared in
    [src/types.ts]; a tile has the two fields the components read. *)
Record Tile := { letter : string; state : LetterState }.

#[global] Instance Tile_eq_dec : EqDecision Tile.
Proof. solve_decision. Defined.

(** The [board] field starts as the empty string and later holds the rows of
    the letter board. *)
Inductive BoardValue := EmptyString | Rows (rows : list (list Tile)).

#[global] Instance BoardValue_eq_dec : EqDecision BoardValue.
Proof. solve_decision. Defined.

(** A score object, keyed by letter state. *)
Abbreviation Score := (gmap LetterState JsCount).

(** Modelled from the spec: the type of a presence ([OtherUser]) is declared
    in [src/types.ts]; its fields are those [enterWaitingRoom] writes.  Every
    field is optional: a presence starts out without fields and
    [updateMyPresence] takes a partial presence. *)
Record Presence := {
  name : option string;
  board : option BoardValue;
  score : option Score;
  stage : option GameState;
  rowsComplete : option nat;
  timeFinished : option JsTime
}.

#[global] Instance Presence_eq_dec : EqDecision Presence.
Proof. solve_decision. Defined.

Definition emptyPresence : Presence :=
  {| name := None; board := None; score := None; stage := None;
     rowsComplete := None; timeFinished := None |}.

(** Another connected user, as the realtime service hands it over;
    [presence] may be missing. *)
Record Other := { presence : option Presence }.

#[global] Instance Other_eq_dec : EqDecision Other.
Proof. solve_decision. Defined.

(** Callbacks handed to [setTimeout]. *)
Inductive Timeout :=
  | StartPlaying   (* () => updateGameStage(GameState.PLAYING), 800 ms *)
  | ConfettiOff.   (* () => confettiAnimation = false, 3000 ms *)

#[global] Instance Timeout_eq_dec : EqDecision Timeout.
Proof. solve_decision. Defined.

(** ** The component's state *)

(** [myPresence] is [myPresence.value] ([None] when it is null or undefined);
    [others] is [others.value]; [savedScores] is [savedScores.value], a
    function that returns the shared list or null: [None] when the function
    itself is missing, [Some None] when it returns null.  [timeouts] are the
    callbacks armed with [setTimeout] that have not fired yet. *)
Record Client := {
  gameState : GameState;
  username : string;
  confettiAnimation : bool;
  emojiScore : string;
  myPresence : option Presence;
  others : option (list Other);
  savedScores : option (option (list Presence));
  timeouts : list Timeout
}.

#[global] Instance Client_eq_dec : EqDecision Client.
Proof. solve_decision. Defined.

Definition setGameState (s : GameState) (c : Client) : Client :=
  {| gameState := s; username := username c;
     confettiAnimation := confettiAnimation c; emojiScore := emojiScore c;
     myPresence := myPresence c; others := others c;
     savedScores := savedScores c; timeouts := timeouts c |}.

Definition setUsername (u : string) (c : Client) : Client :=
  {| gameState := gameState c; username := u;
     confettiAnimation := confettiAnimation c; emojiScore := emojiScore c;
     myPresence := myPresence c; others := others c;
     savedScores := savedScores c; timeouts := timeouts c |}.

Definition setConfettiAnimation (b : bool) (c : Client) : Client :=
  {| gameState := gameState c; username := username c;
     confettiAnimation := b; emojiScore := emojiScore c;
     myPresence := myPresence c; others := others c;
     savedScores := savedScores c; timeouts := timeouts c |}.

Definition setEmojiScore (e : string) (c : Client) : Client :=
  {| gameState := gameState c; username := username c;
     confettiAnimation := confettiAnimation c; emojiScore := e;
     myPresence := myPresence c; others := others c;
     savedScores := savedScores c; timeouts := timeouts c |}.

Definition setMyPresence (p : option Presence) (c : Client) : Client :=
  {| gameState := gameState c; username := username c;
     confettiAnimation := confettiAnimation c; emojiScore := emojiScore c;
     myPresence := p; others := others c;
     savedScores := savedScores c; timeouts := timeouts c |}.

Definition setOthers (o : option (list Other)) (c : Client) : Client :=
  {| gameState := gameState c; username := username c;
     confettiAnimation := confettiAnimation c; emojiScore := emojiScore c;
     myPresence := myPresence c; others := o;
     savedScores := savedScores c; timeouts := timeouts c |}.

Definition setSavedScores (s : option (option (list Presence))) (c : Client)
  : Client :=
  {| gameState := gameState c; username := username c;
     confettiAnimation := confettiAnimation c; emojiScore := emojiScore c;
     myPresence := myPresence c; others := others c;
     savedScores := s; timeouts := timeouts c |}.

Definition setTimeouts (t : list Timeout) (c : Client) : Client :=
  {| gameState := gameState c; username := username c;
     confettiAnimation := confettiAnimation c; emojiScore := emojiScore c;
     myPresence := myPresence c; others := others c;
     savedScores := savedScores c; timeouts := t |}.

(** [setTimeout(cb, _)]: the callback is pending until it fires. *)
Definition setTimeout (cb : Timeout) (c : Client) : Client :=
  setTimeouts (timeouts c ++ [cb]) c.

(** The initial state of the component: [gameState] starts as CONNECTING. *)
Definition initialClient (u : string) : Client :=
  {| gameState := CONNECTING; username := u; confettiAnimation := false;
     emojiScore := ""; myPresence := None; others := None;
     savedScores := None; timeouts := [] |}.

(** What running a piece of the script leaves behind: the state, and whether
    a [TypeError] cut the run short (the effects before it persist). *)
Inductive Outcome := Done (c : Client) | Throw (c : Client).

Definition stateOf (o : Outcome) : Client :=
  match o with Done c | Throw c => c end.

(** ** Presence updates *)

Definition override {A} (old new : option A) : option A :=
  match new with Some x => Some x | None => old end.

(** [{ ...p, ...patch }] *)
Definition mergePresence (p patch : Presence) : Presence :=
  {| name := override (name p) (name patch);
     board := override (board p) (board patch);
     score := override (score p) (score patch);
     stage := override (stage p) (stage patch);
     rowsComplete := override (rowsComplete p) (rowsComplete patch);
     timeFinished := override (timeFinished p) (timeFinished patch) |}.

(** Modelled from the spec: [updateMyPresence] comes from [lib-liveblocks],
    which is not among the sources.  The spec leaves replication of the
    presence to the realtime service, so only the local effect is modelled:
    the fields of the patch override those of the local presence, at once. *)
Definition updateMyPresence (patch : Presence) (c : Client) : Client :=
  setMyPresence
    (Some (mergePresence (default emptyPresence (myPresence c)) patch)) c.

Definition stagePatch (s : GameState) : Presence :=
  {| name := None; board := None; score := None; stage := Some s;
     rowsComplete := None; timeFinished := None |}.

(** [updateGameStage]: guarded by [myPresence?.value]. *)
Definition updateGameStage (s : GameState) (c : Client) : Client :=
  match myPresence c with
  | Some _ => updateMyPresence (stagePatch s) (setGameState s c)
  | None => c
  end.

(** ** Helper functions of the script *)

(** [other.presence && other.presence.stage === stage] *)
Definition otherInStage (s : GameState) (o : Other) : bool :=
  match presence o with
  | Some p => bool_decide (stage p = Some s)
  | None => false
  end.

(** The [stages.some(...)] loop of [allInStages], with the flag
    [myPresenceFound] threaded through.  [some] stops at the first stage for
    which the callback returns true, so the flag is only updated for the
    stages visited up to there.  [myPresenceFound || ...] reads
    [myPresence.value.stage] only while the flag is false; with no presence
    that read is a [TypeError] ([None]).  The result is the value of [some]
    and the final flag. *)
Fixpoint someStage (os : list Other) (me : option Presence)
    (myPresenceFound : bool) (stages : list GameState) : option (bool * bool) :=
  match stages with
  | [] => Some (false, myPresenceFound)
  | s :: rest =>
      let othersReady := forallb (otherInStage s) os in
      match (if myPresenceFound then Some true
             else match me with
                  | Some p => Some (bool_decide (stage p = Some s))
                  | None => None
                  end) with
      | None => None
      | Some found =>
          if othersReady then Some (true, found)
          else someStage os me found rest
      end
  end.

(** [allInStages]: [None] stands for a [TypeError]. *)
Definition allInStages (stages : list GameState) (c : Client) : option bool :=
  match others c with
  | None => Some false
  | Some os =>
      if bool_decide (length os = 0) then Some false
      else match someStage os (myPresence c) false stages with
           | Some (r, myPresenceFound) => Some (r && myPresenceFound)
           | None => None
           end
  end.

(** [othersPresence]: the presences of the others that have one. *)
Definition othersPresence (c : Client) : list Presence :=
  match others c with
  | Some os => omap presence os
  | None => []
  end.

(** [Array.prototype.filter] with a callback that also takes the index. *)
Fixpoint filterFrom {A} (f : A → nat → bool) (i : nat) (l : list A) : list A :=
  match l with
  | [] => []
  | x :: rest =>
      if f x i then x :: filterFrom f (S i) rest else filterFrom f (S i) rest
  end.

Definition filterIndexed {A} (f : A → nat → bool) (l : list A) : list A :=
  filterFrom f 0 l.

(** A score is an object, hence truthy whenever it is there. *)
Definition hasScore (p : Presence) : bool := bool_decide (is_Some (score p)).

(** [o?.score && (index % 2 === (odd ? 1 : 0))] *)
Definition oddSide (odd : bool) (o : Presence) (index : nat) : bool :=
  hasScore o && bool_decide (index mod 2 = (if odd then 1 else 0)).

Definition othersFilterOdd (odd : bool) (c : Client) : list Presence :=
  filterIndexed (oddSide odd) (othersPresence c).

(** ** Game events *)

Definition truthyList {A} (l : option (list A)) : bool :=
  match l with Some (_ :: _) => true | _ => false end.

(** [gameEvents[gameState]?.()], one case per key of [gameEvents].
    Calling [savedScores.value] when it is missing is a [TypeError]. *)
Definition gameEvents (c : Client) : Outcome :=
  match gameState c with
  | CONNECTING =>
      match myPresence c with
      | None => Done c
      | Some _ =>
          match savedScores c with
          | None => Throw c
          | Some None => Done c
          | Some (Some _) => Done (updateGameStage INTRO c)
          end
      end
  | INTRO =>
      match savedScores c with
      | None => Throw c
      | Some l => if truthyList l then Done (updateGameStage SCORES c)
                  else Done c
      end
  | READY =>
      match allInStages [READY; PLAYING] c with
      | None => Throw c
      | Some true => Done (setTimeout StartPlaying c)
      | Some false => Done c
      end
  | COMPLETE =>
      match allInStages [SCORES; COMPLETE; WAITING] c with
      | None => Throw c
      | Some true => Done (updateGameStage SCORES c)
      | Some false => Done c
      end
  | WAITING | PLAYING | SCORES => Done c
  end.

(** The body of [watchEffect]. *)
Definition watchEffect (c : Client) : Outcome := gameEvents c.

(** A pending [setTimeout] callback runs. *)
Definition runTimeout (cb : Timeout) (c : Client) : Client :=
  match cb with
  | StartPlaying => updateGameStage PLAYING c
  | ConfettiOff => setConfettiAnimation false c
  end.

(** ** Event functions *)

Definition newline : string := String (Ascii.ascii_of_nat 10) "".

Definition initialScore : Score :=
  {[ CORRECT := Num 0; PRESENT := Num 0; ABSENT := Num 0 ]}.

(** [currentScore[state] += 1] *)
Definition bump (currentScore : Score) (st : LetterState) : Score :=
  <[ st := match currentScore !! st with
           | Some (Num n) => Num (n + 1)
           | Some NaN | None => NaN
           end ]> currentScore.

(** [letterStates] is an object from letters to states; [Object.values]
    lists its values in insertion order. *)
Definition objectValues {K V} (o : list (K * V)) : list V := o.*2.

(** [curr.every(obj => obj.state !== LetterState.INITIAL)] *)
Definition rowGuessed (curr : list Tile) : bool :=
  forallb (λ obj, negb (bool_decide (state obj = INITIAL))) curr.

(** The [letterBoard.reduce(...)] of [onLettersGuessed]. *)
Definition countRows (letterBoard : list (list Tile)) : nat :=
  fold_left (λ acc curr, if rowGuessed curr then acc + 1 else acc)
            letterBoard 0.

Definition onLettersGuessed (letterStates : list (string * LetterState))
    (letterBoard : list (list Tile)) (c : Client) : Client :=
  let currentScore := fold_left bump (objectValues letterStates) initialScore in
  let rowsComplete := countRows letterBoard in
  updateMyPresence
    {| name := None; board := Some (Rows letterBoard);
       score := Some currentScore; stage := None;
       rowsComplete := Some rowsComplete; timeFinished := None |} c.

(** [enterWaitingRoom]: the default presence, then the WAITING stage. *)
Definition enterWaitingRoom (c : Client) : Client :=
  updateGameStage WAITING
    (updateMyPresence
       {| name := Some (username c); board := Some EmptyString;
          score := Some {[ ABSENT := Num 0; CORRECT := Num 0;
                           PRESENT := Num 0 ]};
          stage := Some (gameState c); rowsComplete := Some 0;
          timeFinished := Some Infinity |} c).

Section Game.

(** [answer] and [answerDay] come from [getWordOfTheDay], [sortUsers] from
    [lib/sortUsers]; none of them is among the sources. *)
Variable answer : string.
Variable answerDay : nat.
Variable sortUsers : list Presence → list Presence.

(** The computed [sortedUsers]. *)
Definition sortedUsers (c : Client) : list Presence :=
  match myPresence c with
  | None => []
  | Some me =>
      sortUsers (List.filter hasScore (othersPresence c ++ [me]))
  end.

Definition createEmojiScore (successGrid : string) (c : Client) : string :=
  let header := "#BatailleDeMot #" +:+ pretty answerDay +:+ newline +:+ newline in
  let lines :=
    imap (λ index user,
            pretty (index + 1) +:+ ". "
            +:+ default "undefined" (name user) +:+ newline)
         (sortedUsers c) in
  foldl String.app header lines
  +:+ newline +:+ successGrid
  +:+ newline +:+ newline +:+ "https://wleb.fr/bataille-de-mots".

Definition timePatch (now : Z) : Presence :=
  {| name := None; board := None; score := None; stage := None;
     rowsComplete := None; timeFinished := Some (Millis now) |}.

(** [{ ...updatedPresence, score: { ...myPresence.value.score,
    [LetterState.CORRECT]: answer.length } }] *)
Definition successPatch (now : Z) (me : Presence) : Presence :=
  {| name := None; board := None;
     score := Some (<[ CORRECT := Num (String.length answer) ]>
                      (default ∅ (score me)));
     stage := None; rowsComplete := None;
     timeFinished := Some (Millis now) |}.

(** [pushPresence]: [savedScores.value()!.push(myPresence.value)] on the
    list [l]. After [updateMyPresence] the presence is always there. *)
Definition pushPresence (l : list Presence) (c : Client) : Client :=
  setSavedScores
    (Some (Some (l ++ option_list (myPresence c)))) c.

(** [onGameComplete].  The guard [!myPresence] tests the ref itself, which
    is always there, so only [savedScores?.value] can make it return early.
    [now] is what [Date.now()] returns. *)
Definition onGameComplete (success : bool) (successGrid : option string)
    (now : Z) (c : Client) : Outcome :=
  match savedScores c with
  | None => Done c
  | Some list =>
      let c1 := updateGameStage COMPLETE c in
      let updated :=
        if success then
          match myPresence c1 with
          | None => None
          | Some me =>
              Some (successPatch now me,
                    setTimeout ConfettiOff (setConfettiAnimation true c1))
          end
        else Some (timePatch now, c1) in
      match updated with
      | None => Throw c1
      | Some (updatedPresence, c2) =>
          let c3 := updateMyPresence updatedPresence c2 in
          match list with
          | None => Throw c3
          | Some l =>
              let c4 := pushPresence l c3 in
              Done (setEmojiScore
                      (createEmojiScore (default "" successGrid) c4) c4)
          end
      end
  end.

(** ** The client as a state machine *)

(** What can happen to a client: the reactive effect runs, the service
    delivers a new value of the local presence, of the others or of the
    scores, the player acts on what the template renders, a timeout
    fires. *)
Inductive Event :=
  | Watch
  | Connected
  | OthersChanged (o : option (list Other))
  | ScoresChanged (s : option (option (list Presence)))
  | TypeUsername (u : string)
  | SubmitUsername
  | ClickReady
  | ClickUnready
  | LettersGuessed (letterStates : list (string * LetterState))
                   (letterBoard : list (list Tile))
  | GameComplete (success : bool) (successGrid : option string) (now : Z)
  | Fire (i : nat).

(** [myPresence.stage === s], as the template reads it. *)
Definition myStageIs (s : GameState) (c : Client) : bool :=
  match myPresence c with
  | Some me => bool_decide (stage me = Some s)
  | None => false
  end.

Definition inStage (ss : list GameState) (c : Client) : bool :=
  bool_decide (gameState c ∈ ss).

(** An event is enabled when the template renders the control that
    triggers it ([v-if] on [gameState] and on [myPresence.stage]). *)
Definition enabled (e : Event) (c : Client) : bool :=
  match e with
  | Watch | OthersChanged _ | ScoresChanged _ => true
  | Connected => bool_decide (myPresence c = None)
  | TypeUsername _ => inStage [INTRO] c
  | SubmitUsername => inStage [INTRO] c && negb (bool_decide (username c = ""))
  | ClickReady =>
      inStage [WAITING; READY] c && bool_decide (is_Some (myPresence c))
      && negb (myStageIs READY c)
  | ClickUnready => inStage [WAITING; READY] c && myStageIs READY c
  | LettersGuessed _ _ | GameComplete _ _ _ => inStage [PLAYING; COMPLETE] c
  | Fire i => bool_decide (i < length (timeouts c))
  end.

Definition handle (e : Event) (c : Client) : Outcome :=
  match e with
  | Watch => watchEffect c
  | Connected => Done (setMyPresence (Some emptyPresence) c)
  | OthersChanged o => Done (setOthers o c)
  | ScoresChanged s => Done (setSavedScores s c)
  | TypeUsername u => Done (setUsername u c)
  | SubmitUsername => Done (enterWaitingRoom c)
  | ClickReady => Done (updateGameStage READY c)
  | ClickUnready => Done (updateGameStage WAITING c)
  | LettersGuessed letterStates letterBoard =>
      Done (onLettersGuessed letterStates letterBoard c)
  | GameComplete success successGrid now =>
      onGameComplete success successGrid now c
  | Fire i =>
      match timeouts c !! i with
      | Some cb => Done (runTimeout cb (setTimeouts (delete i (timeouts c)) c))
      | None => Done c
      end
  end.

(** One step of the client. *)
Definition step (c : Client) (e : Event) (c' : Client) : Prop :=
  enabled e c = true ∧ stateOf (handle e c) = c'.

(** Running a sequence of events, each one enabled when its turn comes. *)
Fixpoint run (es : list Event) (c : Client) : option Client :=
  match es with
  | [] => Some c
  | e :: rest =>
      if enabled e c then run rest (stateOf (handle e c)) else None
  end.

End Game.

(** * The mini board and the panels of the template *)

(** The tile of a board that nobody has written to. *)
Definition emptyTile : Tile := {| letter := ""; state := INITIAL |}.

(** [emptyBoard] of the mini board: [Array.from({ length: 6 }, () =>
    Array.from({ length: answerLength }, () => ...))].  The prop
    [answerLength] is optional; a missing length counts as 0. *)
Definition emptyBoard (answerLength : option nat) : list (list Tile) :=
  replicate 6 (replicate (default 0 answerLength) emptyTile).

(** The computed [currentBoard]: [user.board.length ? user.board :
    emptyBoard].  The empty string and the empty array both have length 0;
    reading the length of a missing board is a [TypeError] ([None]). *)
Definition currentBoard (answerLength : option nat) (user : Presence)
  : option (list (list Tile)) :=
  match board user with
  | None => None
  | Some EmptyString => Some (emptyBoard answerLength)
  | Some (Rows []) => Some (emptyBoard answerLength)
  | Some (Rows (row :: rows)) => Some (row :: rows)
  end.

(** [tile.state && 'revealed']: a tile is revealed when its state is
    truthy. *)
Definition revealed (t : Tile) : bool := negb (bool_decide (state t = INITIAL)).

(** The panels of the template of [WordleWars.vue], one per [v-if] on
    [gameState]. *)
Inductive Panel :=
  | ConnectingPanel | IntroPanel | WaitingPanel | PlayingPanel | ScoresPanel.

#[global] Instance Panel_eq_dec : EqDecision Panel.
Proof. solve_decision. Defined.

(** The panels rendered in a stage, in the order of the template. *)
Definition panels (s : GameState) : list Panel :=
  (if bool_decide (s = CONNECTING) then [ConnectingPanel] else [])
  ++ (if bool_decide (s = INTRO) then [IntroPanel] else [])
  ++ (if bool_decide (s = WAITING) || bool_decide (s = READY)
      then [WaitingPanel] else [])
  ++ (if bool_decide (s = PLAYING) || bool_decide (s = COMPLETE)
      then [PlayingPanel] else [])
  ++ (if bool_decide (s = SCORES) then [ScoresPanel] else []).

(** * Notions used in the statements *)

(** The number of board rows in which every tile's state is not INITIAL. *)
Definition guessedRows (letterBoard : list (list Tile)) : nat :=
  length (filter (λ row, Forall (λ t, state t ≠ INITIAL) row) letterBoard).

(** The number of guessed letters whose state is [st]. *)
Definition lettersIn (st : LetterState)
    (letterStates : list (string * LetterState)) : nat :=
  length (filter (λ kv, kv.2 = st) letterStates).

(** The presences of a list together with their positions. *)
Definition positioned {A} (i : nat) (l : list A) : list (nat * A) :=
  imap (λ j x, (i + j, x)) l.

(** The positioned presences that [othersFilterOdd] keeps. *)
Definition keptBy (odd : bool) (l : list (nat * Presence)) : list (nat * Presence) :=
  filter (λ ix, oddSide odd ix.2 ix.1 = true) l.

(** The other users the client knows of. *)
Definition connectedOthers (c : Client) : list Other := default [] (others c).

(** A user is in one of the stages [ss]. *)
Definition userInStages (ss : list GameState) (p : option Presence) : bool :=
  match p with
  | Some me =>
      match stage me with
      | Some s => bool_decide (s ∈ ss)
      | None => false
      end
  | None => false
  end.

(** Every user, the local player and every other connected user, is in one
    of the stages [ss]. *)
Definition everyUserIn (ss : list GameState) (c : Client) : bool :=
  userInStages ss (myPresence c)
  && forallb (λ o, userInStages ss (presence o)) (connectedOthers c).

(** Every other connected user is in the one stage [s]. *)
Definition othersAllIn (s : GameState) (c : Client) : bool :=
  forallb (otherInStage s) (connectedOthers c).

(** The READY event arms the delayed move to PLAYING. *)
Definition armsStart (c : Client) : Prop :=
  watchEffect c = Done (setTimeout StartPlaying c).

(** The COMPLETE event moves the client to SCORES. *)
Definition showsScores (c : Client) : Prop :=
  watchEffect c = Done (updateGameStage SCORES c)
  ∧ gameState (updateGameStage SCORES c) = SCORES.

(** The stage changes the client makes. *)
Definition stageEdges : list (GameState * GameState) :=
  [ (CONNECTING, INTRO); (INTRO, WAITING); (INTRO, SCORES);
    (WAITING, READY); (READY, WAITING); (READY, PLAYING);
    (PLAYING, COMPLETE); (COMPLETE, SCORES) ].

(** The stage [s'] immediately follows [s] in the order of the spec. *)
Definition nextStage (s s' : GameState) : Prop :=
  stageIndex s' = S (stageIndex s).

(** The stage and the presence of a client stay in step: outside of
    CONNECTING the presence is available and its stage is [gameState]. *)
Definition synced (c : Client) : Prop :=
  gameState c = CONNECTING
  ∨ ∃ me, myPresence c = Some me ∧ stage me = Some (gameState c).

(** A step follows the order of the spec when it keeps the stage or moves to
    the immediately following one. *)
Definition followsOrder (c c' : Client) : Prop :=
  gameState c' ≠ gameState c → nextStage (gameState c) (gameState c').

(** The stages that the loop of [allInStages] visits: those up to and
    including the first one that all of [os] are in. *)
Fixpoint visited (os : list Other) (stages : list GameState) : list GameState :=
  match stages with
  | [] => []
  | s :: rest =>
      if forallb (otherInStage s) os then [s] else s :: visited os rest
  end.

(** An event that does not bring another user: anything but the delivery of
    a non-empty list of others. *)
Definition bringsNobody (e : Event) : bool :=
  match e with
  | OthersChanged (Some (_ :: _)) => false
  | _ => true
  end.

(** The number of rows of a board in which every tile is revealed. *)
Definition revealedRows (b : list (list Tile)) : nat :=
  length (filter (λ row, forallb revealed row = true) b).

(** Every presence of the list has a score. *)
Definition allScored (l : list Presence) : Prop :=
  Forall (λ o, is_Some (score o)) l.

(** * Concrete games *)

(** The word of the day, its number and the order of the score board used in
    the examples. *)
Definition exampleAnswer : string := "monde".
Definition exampleDay : nat := 1.
Definition exampleOrder (users : list Presence) : list Presence := users.

(** The presence of a player who entered the waiting room as [n], is now in
    stage [s], has [k] correct letters and finished at [t]. *)
Definition playerAt (n : string) (s : GameState) (k : nat) (t : JsTime)
  : Presence :=
  {| name := Some n; board := Some EmptyString;
     score := Some {[ ABSENT := Num 0; CORRECT := Num k; PRESENT := Num 0 ]};
     stage := Some s; rowsComplete := Some 0; timeFinished := Some t |}.

Definition bobAt (s : GameState) : Other :=
  {| presence := Some (playerAt "bob" s 0 Infinity) |}.

(** Ada's client, in stage [s] with presence [me], seeing the others [os] and
    the saved scores [scores]. *)
Definition adaClient (s : GameState) (me : Presence) (os : list Other)
    (scores : list Presence) : Client :=
  {| gameState := s; username := "ada"; confettiAnimation := false;
     emojiScore := ""; myPresence := Some me; others := Some os;
     savedScores := Some (Some scores); timeouts := [] |}.

(** Ada is ready and nobody else is connected. *)
Definition loneReady : Client :=
  adaClient READY (playerAt "ada" READY 0 Infinity) [] [].

(** Ada and Bob are both ready. *)
Definition readyWithBob : Client :=
  adaClient READY (playerAt "ada" READY 0 Infinity) [bobAt READY] [].

(** Ada is playing, Bob too. *)
Definition playingWithBob : Client :=
  adaClient PLAYING (playerAt "ada" PLAYING 0 Infinity) [bobAt PLAYING] [].

(** Ada has finished and nobody else is connected any more. *)
Definition loneComplete : Client :=
  adaClient COMPLETE (playerAt "ada" COMPLETE 0 (Millis 1000)) []
    [playerAt "ada" COMPLETE 0 (Millis 1000)].

(** Ada and Bob have both finished. *)
Definition completeWithBob : Client :=
  adaClient COMPLETE (playerAt "ada" COMPLETE 0 (Millis 1000))
    [bobAt COMPLETE] [playerAt "ada" COMPLETE 0 (Millis 1000)].

(** Ada has finished; Bob, the only other user, is already at the scores. *)
Definition bobAtScores : Client :=
  adaClient COMPLETE (playerAt "ada" COMPLETE 5 (Millis 1000))
    [bobAt SCORES] [playerAt "ada" COMPLETE 5 (Millis 1000)].

(** Ada has just connected and scores for the word are already saved. *)
Definition introWithScores : Client :=
  adaClient INTRO (stagePatch INTRO) []
    [playerAt "bob" COMPLETE 5 (Millis 1000)].

(** Ada's client before anything is connected. *)
Definition disconnected : Client := initialClient "ada".

(** The events that bring a fresh client to [loneReady]. *)
Definition becomeReady : list Event :=
  [ Connected; ScoresChanged (Some (Some [])); OthersChanged (Some []);
    Watch; SubmitUsername; ClickReady ].

(** Bob joins and is ready, the game starts; Bob then leaves and Ada gives
    up at time 1000. *)
Definition finishAlone : list Event :=
  becomeReady
  ++ [ OthersChanged (Some [bobAt READY]); Watch; Fire 0;
       OthersChanged (Some []); GameComplete false None 1000 ].

(** Bob joins and is ready, the game starts; Ada wins at time 1000 and then
    learns that Bob is already at the scores. *)
Definition finishAfterBob : list Event :=
  becomeReady
  ++ [ OthersChanged (Some [bobAt READY]); Watch; Fire 0;
       OthersChanged (Some [bobAt PLAYING]);
       GameComplete true None 1000;
       OthersChanged (Some [bobAt SCORES]) ].

(** What the READY and COMPLETE events read of a client. *)
Definition view (c : Client)
  : GameState * option Presence * option (list Other) :=
  (gameState c, myPresence c, others c).

(** Ada's client is connected and scores for the word are already saved. *)
Definition connectingWithScores : Client :=
  adaClient CONNECTING emptyPresence []
    [playerAt "bob" COMPLETE 5 (Millis 1000)].

(** Ada is playing with Bob, but the scores list is not there yet. *)
Definition playingWithoutList : Client :=
  setSavedScores (Some None) playingWithBob.

(** A board of two rows of two letters, the first row guessed. *)
Definition oneRowGuessed : list (list Tile) :=
  [ [ {| letter := "m"; state := CORRECT |};
      {| letter := "a"; state := ABSENT |} ];
    [ emptyTile; emptyTile ] ].

(** Ada is ready; the only other user has connected but has no presence
    yet. *)
Definition readyWithNewcomer : Client :=
  adaClient READY (playerAt "ada" READY 0 Infinity) [{| presence := None |}] [].

(** Ada, a late joiner, is looking at the scores. *)
Definition atScores : Client :=
  adaClient SCORES (stagePatch SCORES) []
    [playerAt "bob" COMPLETE 5 (Millis 1000)].

(** The states of three guessed letters, and of three letters one of which
    is still in its initial state. *)
Definition threeLetters : list (string * LetterState) :=
  [("m", CORRECT); ("a", ABSENT); ("o", PRESENT)].

(** * Properties *)

(** ** The stages *)

Lemma NoDup_allGameStates : NoDup allGameStates.
Proof. apply (bool_decide_unpack _). by vm_compute. Qed.

Lemma elem_of_allGameStates (s : GameState) : s ∈ allGameStates.
Proof. destruct s; unfold allGameStates; set_solver. Qed.

Lemma NoDup_allLetterStates : NoDup allLetterStates.
Proof. apply (bool_decide_unpack _). by vm_compute. Qed.

Lemma elem_of_allLetterStates (s : LetterState) : s ∈ allLetterStates.
Proof. destruct s; unfold allLetterStates; set_solver. Qed.

(** C3, amended: the game lifecycle state type has exactly seven states,
    CONNECTING, INTRO, WAITING, READY, PLAYING, COMPLETE and SCORES: they
    are pairwise distinct and every stage is one of them. *)
Theorem GameState_seven_states :
  NoDup allGameStates ∧ (∀ s : GameState, s ∈ allGameStates)
  ∧ length allGameStates = 7 ∧ card GameState = 7.
Proof.
  split; [apply NoDup_allGameStates|].
  split; [apply elem_of_allGameStates|].
  split; reflexivity.
Qed.

(** C3, as stated: no enumeration of the stages has exactly six members. *)
Lemma GameState_not_six_states :
  ¬ ∃ l : list GameState, NoDup l ∧ (∀ s, s ∈ l) ∧ length l = 6.
Proof.
  intros (l & _ & Hall & Hlen).
  assert (Hsub : allGameStates ⊆+ l).
  { apply NoDup_submseteq; [apply NoDup_allGameStates|]. intros s _. apply Hall. }
  apply submseteq_length in Hsub. simpl in Hsub. lia.
Qed.

(** ** [updateGameStage] *)

Lemma updateGameStage_available s c me :
  myPresence c = Some me →
  updateGameStage s c
  = setMyPresence (Some (mergePresence me (stagePatch s))) (setGameState s c).
Proof.
  intros H. unfold updateGameStage. rewrite H.
  unfold updateMyPresence. simpl. by rewrite H.
Qed.

Lemma updateGameStage_unavailable s c :
  myPresence c = None → updateGameStage s c = c.
Proof. intros H. unfold updateGameStage. by rewrite H. Qed.

Lemma updateGameStage_gameState s c :
  gameState (updateGameStage s c) = s ∨ updateGameStage s c = c.
Proof.
  unfold updateGameStage. destruct (myPresence c); [by left | by right].
Qed.

(** C9: [updateGameStage] sets both the [gameState] variable and the stage
    field of the presence to the requested stage when the local presence is
    available (and touches nothing else), and leaves the whole state
    unchanged when it is not. *)
Theorem updateGameStage_atomic (s : GameState) (c : Client) :
  (∀ me, myPresence c = Some me →
     ∃ me', myPresence (updateGameStage s c) = Some me'
       ∧ gameState (updateGameStage s c) = s
       ∧ stage me' = Some s
       ∧ (name me', board me', score me', rowsComplete me', timeFinished me')
         = (name me, board me, score me, rowsComplete me, timeFinished me)
       ∧ (username (updateGameStage s c), others (updateGameStage s c),
          savedScores (updateGameStage s c), timeouts (updateGameStage s c),
          confettiAnimation (updateGameStage s c),
          emojiScore (updateGameStage s c))
         = (username c, others c, savedScores c, timeouts c,
            confettiAnimation c, emojiScore c))
  ∧ (myPresence c = None → updateGameStage s c = c).
Proof.
  split.
  - intros me Hme. rewrite (updateGameStage_available _ _ _ Hme).
    exists (mergePresence me (stagePatch s)). by destruct me.
  - apply updateGameStage_unavailable.
Qed.

(** ** Frame: the others are never written *)

Lemma updateMyPresence_others patch c : others (updateMyPresence patch c) = others c.
Proof. reflexivity. Qed.

Lemma updateGameStage_others s c : others (updateGameStage s c) = others c.
Proof. unfold updateGameStage. by destruct (myPresence c). Qed.

Lemma gameEvents_others c : others (stateOf (gameEvents c)) = others c.
Proof.
  unfold gameEvents.
  repeat (case_match; simpl; try done); by rewrite updateGameStage_others.
Qed.

Lemma runTimeout_others cb c : others (runTimeout cb c) = others c.
Proof. destruct cb; simpl; [apply updateGameStage_others | done]. Qed.

Lemma onGameComplete_others answer answerDay sortUsers success grid now c :
  others (stateOf (onGameComplete answer answerDay sortUsers success grid now c))
  = others c.
Proof.
  unfold onGameComplete.
  repeat (case_match; simpl; simplify_eq; try done);
    by rewrite ?updateGameStage_others.
Qed.

(** C5: a game event, a stage transition, and more generally every step of
    the local client leaves the presence records of the other users as they
    were; they only change when the service delivers new ones
    ([OthersChanged]). *)
Theorem others_unchanged answer answerDay sortUsers (c : Client) :
  others (stateOf (gameEvents c)) = others c
  ∧ (∀ s, others (updateGameStage s c) = others c)
  ∧ (∀ e, others (stateOf (handle answer answerDay sortUsers e c))
          = match e with OthersChanged o => o | _ => others c end).
Proof.
  split; [apply gameEvents_others|].
  split; [intros s; apply updateGameStage_others|].
  intros e. destruct e as [ | | | | | | | | | | i]; simpl;
    unfold watchEffect, enterWaitingRoom;
    rewrite ?gameEvents_others, ?updateGameStage_others,
      ?onGameComplete_others; try done.
  destruct (timeouts c !! i); simpl; [|done]. by rewrite runTimeout_others.
Qed.

(** ** [onLettersGuessed] *)

Lemma rowGuessed_Forall (curr : list Tile) :
  rowGuessed curr = true ↔ Forall (λ t, state t ≠ INITIAL) curr.
Proof.
  unfold rowGuessed. rewrite forallb_forall, Forall_forall.
  split; intros H t Ht.
  - apply list_elem_of_In, H in Ht. apply negb_true_iff in Ht.
    by apply bool_decide_eq_false in Ht.
  - apply negb_true_iff, bool_decide_eq_false, H. by apply list_elem_of_In.
Qed.

Lemma countRows_from (letterBoard : list (list Tile)) (acc : nat) :
  fold_left (λ acc curr, if rowGuessed curr then acc + 1 else acc) letterBoard acc
  = acc + guessedRows letterBoard.
Proof.
  unfold guessedRows. revert acc.
  induction letterBoard as [|curr rest IH]; intros acc; simpl; [lia|].
  rewrite IH, filter_cons. destruct (rowGuessed curr) eqn:Hrow.
  - rewrite decide_True by (by apply rowGuessed_Forall). simpl. lia.
  - rewrite decide_False; [done|].
    intros HF. apply rowGuessed_Forall in HF. congruence.
Qed.

Lemma bump_same (sc : Score) (st : LetterState) (n : nat) :
  sc !! st = Some (Num n) → bump sc st !! st = Some (Num (n + 1)).
Proof. intros H. unfold bump. by rewrite lookup_insert_eq, H. Qed.

Lemma bump_other (sc : Score) (st st' : LetterState) :
  st ≠ st' → bump sc st !! st' = sc !! st'.
Proof. intros H. unfold bump. by rewrite lookup_insert_ne. Qed.

Lemma fold_bump_count (l : list LetterState) (sc : Score) (st : LetterState) (n : nat) :
  sc !! st = Some (Num n) →
  fold_left bump l sc !! st = Some (Num (n + length (filter (λ x, x = st) l))).
Proof.
  revert sc n. induction l as [|x l IH]; intros sc n Hsc; simpl.
  - by rewrite Nat.add_0_r.
  - rewrite filter_cons. destruct (decide (x = st)) as [->|Hne].
    + rewrite (IH _ (n + 1)) by (by apply bump_same). simpl.
      do 2 f_equal. lia.
    + apply IH. by rewrite bump_other.
Qed.

Lemma filter_snd_length (st : LetterState) (o : list (string * LetterState)) :
  length (filter (λ x, x = st) (objectValues o)) = lettersIn st o.
Proof.
  unfold lettersIn, objectValues.
  induction o as [|[k v] o IH]; [done|].
  rewrite fmap_cons, !filter_cons. cbn [snd].
  destruct (decide (v = st)); cbn [length]; by rewrite IH.
Qed.

(** C6: after [onLettersGuessed] the local presence has [rowsComplete] equal
    to the number of board rows in which every tile's state is not INITIAL,
    and a [score] that maps each of CORRECT, PRESENT and ABSENT to the
    number of guessed letters in that state. *)
Theorem onLettersGuessed_presence
    (letterStates : list (string * LetterState))
    (letterBoard : list (list Tile)) (c : Client) :
  ∃ me sc,
    myPresence (onLettersGuessed letterStates letterBoard c) = Some me
    ∧ rowsComplete me = Some (guessedRows letterBoard)
    ∧ score me = Some sc
    ∧ sc !! CORRECT = Some (Num (lettersIn CORRECT letterStates))
    ∧ sc !! PRESENT = Some (Num (lettersIn PRESENT letterStates))
    ∧ sc !! ABSENT = Some (Num (lettersIn ABSENT letterStates)).
Proof.
  exists (mergePresence (default emptyPresence (myPresence c))
            {| name := None; board := Some (Rows letterBoard);
               score := Some (fold_left bump (objectValues letterStates)
                                initialScore);
               stage := None;
               rowsComplete := Some (countRows letterBoard);
               timeFinished := None |}),
         (fold_left bump (objectValues letterStates) initialScore).
  split; [reflexivity|].
  split; [cbn [rowsComplete mergePresence override]; unfold countRows;
          by rewrite countRows_from|].
  split; [reflexivity|].
  rewrite <- !filter_snd_length.
  repeat split; by apply (fold_bump_count _ _ _ 0).
Qed.

(** ** [onGameComplete] *)

(** C7: when the player finishes the puzzle with the presence and the scores
    list available, [onGameComplete] returns normally, sets the stage (both
    [gameState] and the presence's) to COMPLETE, records the finite
    [timeFinished] that [Date.now()] gave, on success sets the CORRECT
    component of the score to the length of the answer (on failure the score
    is kept), and appends the local presence, once, at the end of the shared
    scores list. *)
Theorem onGameComplete_available
    (answer : string) (answerDay : nat)
    (sortUsers : list Presence → list Presence)
    (success : bool) (successGrid : option string) (now : Z)
    (c : Client) (me : Presence) (l : list Presence) :
  myPresence c = Some me →
  savedScores c = Some (Some l) →
  ∃ c' me',
    onGameComplete answer answerDay sortUsers success successGrid now c = Done c'
    ∧ gameState c' = COMPLETE
    ∧ myPresence c' = Some me'
    ∧ stage me' = Some COMPLETE
    ∧ timeFinished me' = Some (Millis now)
    ∧ isFinite (Millis now) = true
    ∧ (success = true →
         ∃ sc, score me' = Some sc
               ∧ sc !! CORRECT = Some (Num (String.length answer)))
    ∧ (success = false → score me' = score me)
    ∧ savedScores c' = Some (Some (l ++ [me'])).
Proof.
  intros Hme Hscores. unfold onGameComplete. rewrite Hscores.
  rewrite (updateGameStage_available _ _ _ Hme).
  destruct success; cbn -[createEmojiScore mergePresence].
  - eexists _, _. split; [reflexivity|].
    cbn -[createEmojiScore]. repeat split; try done.
    intros _. eexists. split; [reflexivity|]. apply lookup_insert_eq.
  - eexists _, _. split; [reflexivity|].
    cbn -[createEmojiScore]. repeat split; done.
Qed.

(** ** [othersFilterOdd] *)

Lemma positioned_cons {A} (i : nat) (x : A) (l : list A) :
  positioned i (x :: l) = (i, x) :: positioned (S i) l.
Proof.
  unfold positioned. rewrite imap_cons, Nat.add_0_r. f_equal.
  apply imap_ext. intros j y _. simpl. f_equal. lia.
Qed.

Lemma filterFrom_positioned {A} (f : A → nat → bool) (i : nat) (l : list A) :
  filterFrom f i l = (filter (λ ix, f ix.2 ix.1 = true) (positioned i l)).*2.
Proof.
  revert i. induction l as [|x l IH]; intros i; [done|].
  rewrite positioned_cons, filter_cons. cbn [filterFrom fst snd].
  destruct (f x i); [rewrite decide_True by done | rewrite decide_False by done];
    by rewrite IH.
Qed.

Lemma NoDup_positioned {A} (i : nat) (l : list A) : NoDup (positioned i l).
Proof.
  revert i. induction l as [|x l IH]; intros i; [constructor|].
  rewrite positioned_cons. constructor; [|apply IH].
  unfold positioned. intros Hin.
  apply elem_of_lookup_imap in Hin as (j & y & Heq & _).
  injection Heq as Hi _. lia.
Qed.

Lemma oddSide_exclusive (o : Presence) (i : nat) :
  ¬ (oddSide true o i = true ∧ oddSide false o i = true).
Proof.
  unfold oddSide. intros [H1 H2].
  apply andb_true_iff in H1 as [_ H1]. apply andb_true_iff in H2 as [_ H2].
  apply bool_decide_eq_true in H1. apply bool_decide_eq_true in H2. lia.
Qed.

Lemma oddSide_cases (o : Presence) (i : nat) :
  is_Some (score o) → oddSide true o i = negb (oddSide false o i).
Proof.
  intros Hs. unfold oddSide, hasScore. rewrite bool_decide_eq_true_2 by done.
  simpl. pose proof (Nat.mod_upper_bound i 2).
  repeat case_bool_decide; simpl; try done; lia.
Qed.

Lemma oddSide_no_score (odd : bool) (o : Presence) (i : nat) :
  ¬ is_Some (score o) → oddSide odd o i = false.
Proof.
  intros Hs. unfold oddSide, hasScore. by rewrite bool_decide_eq_false_2.
Qed.

Lemma keptBy_split (l : list (nat * Presence)) :
  keptBy true l ++ keptBy false l ≡ₚ filter (λ ix, is_Some (score ix.2)) l.
Proof.
  unfold keptBy. induction l as [|[i o] l IH]; [done|].
  rewrite !filter_cons. cbn [fst snd].
  destruct (decide (is_Some (score o))) as [Hs|Hs].
  - rewrite (oddSide_cases o i Hs). destruct (oddSide false o i); cbn [negb].
    + rewrite (decide_False (P:=false = true)) by done.
      rewrite (decide_True (P:=true = true)) by done.
      rewrite <- Permutation_middle. by constructor.
    + rewrite (decide_True (P:=true = true)) by done.
      rewrite (decide_False (P:=false = true)) by done.
      cbn [app]. by constructor.
  - rewrite !(oddSide_no_score _ o i Hs). by rewrite !decide_False by done.
Qed.

Lemma scored_positioned (i : nat) (l : list Presence) :
  (filter (λ ix, is_Some (score ix.2)) (positioned i l)).*2
  = filter (λ o, is_Some (score o)) l.
Proof.
  revert i. induction l as [|o l IH]; intros i; [done|].
  rewrite positioned_cons, !filter_cons. cbn [snd].
  destruct (decide (is_Some (score o))); rewrite ?fmap_cons; cbn [snd];
    by rewrite IH.
Qed.

(** C10: with the other users' presences taken with their positions,
    [othersFilterOdd(true)] and [othersFilterOdd(false)] keep disjoint sets
    of positions, and together they keep exactly the presences with a truthy
    score, each one once. *)
Theorem othersFilterOdd_partition (c : Client) :
  let all := positioned 0 (othersPresence c) in
  othersFilterOdd true c = (keptBy true all).*2
  ∧ othersFilterOdd false c = (keptBy false all).*2
  ∧ NoDup all
  ∧ (∀ ix, ix ∈ keptBy true all → ix ∉ keptBy false all)
  ∧ keptBy true all ++ keptBy false all
    ≡ₚ filter (λ ix, is_Some (score ix.2)) all
  ∧ othersFilterOdd true c ++ othersFilterOdd false c
    ≡ₚ filter (λ o, is_Some (score o)) (othersPresence c).
Proof.
  intros all.
  assert (Hside : ∀ odd, othersFilterOdd odd c = (keptBy odd all).*2).
  { intros odd. apply filterFrom_positioned. }
  split; [apply Hside|]. split; [apply Hside|].
  split; [apply NoDup_positioned|].
  split.
  { intros [i o] H1 H2. unfold keptBy in *.
    apply list_elem_of_filter in H1 as [H1 _].
    apply list_elem_of_filter in H2 as [H2 _].
    by apply (oddSide_exclusive o i). }
  split; [apply keptBy_split|].
  rewrite !Hside, <- fmap_app, keptBy_split.
  subst all. by rewrite scored_positioned.
Qed.

(** ** [allInStages] *)

Lemma allInStages_lone (ss : list GameState) (c : Client) :
  connectedOthers c = [] → allInStages ss c = Some false.
Proof.
  unfold connectedOthers, allInStages.
  destruct (others c) as [os|]; simpl; [|done]. by intros ->.
Qed.

Lemma allInStages_connected (ss : list GameState) (c : Client) :
  connectedOthers c ≠ [] →
  allInStages ss c
  = match someStage (connectedOthers c) (myPresence c) false ss with
    | Some (r, myPresenceFound) => Some (r && myPresenceFound)
    | None => None
    end.
Proof.
  unfold connectedOthers, allInStages.
  destruct (others c) as [os|]; simpl; [|done]. intros Hne.
  rewrite bool_decide_eq_false_2; [done|]. by destruct os.
Qed.

(** Once the flag is set, the loop is a plain [some] over the stages. *)
Lemma someStage_found (os : list Other) (me : option Presence)
    (ss : list GameState) :
  someStage os me true ss
  = Some (existsb (λ s, forallb (otherInStage s) os) ss, true).
Proof.
  induction ss as [|s ss IH]; simpl; [done|].
  destruct (forallb (otherInStage s) os); [done|]. by rewrite IH.
Qed.

(** What a true result of the loop, with the flag set, tells. *)
Lemma someStage_true (os : list Other) (me : Presence) (found : bool)
    (ss : list GameState) :
  someStage os (Some me) found ss = Some (true, true) →
  (∃ s, s ∈ ss ∧ forallb (otherInStage s) os = true)
  ∧ (found = true ∨ userInStages ss (Some me) = true).
Proof.
  revert found. induction ss as [|s ss IH]; intros found; [by destruct found|].
  cbn [someStage]. intros H.
  destruct (forallb (otherInStage s) os) eqn:Hs.
  - split; [exists s; split; [apply list_elem_of_here|done]|].
    destruct found; [by left|]. right. injection H as H.
    apply bool_decide_eq_true in H. unfold userInStages. rewrite H.
    apply bool_decide_eq_true, list_elem_of_here.
  - assert (∃ found', someStage os (Some me) found' ss = Some (true, true)
                      ∧ (found' = true → found = true ∨ stage me = Some s))
      as (found' & H' & Hfound).
    { destruct found; [exists true; split; [done|by left]|].
      eexists. split; [exact H|]. intros Hb. right.
      by apply bool_decide_eq_true in Hb. }
    apply IH in H' as [(s' & Hin & Hs') Hmine].
    split; [exists s'; split; [by apply list_elem_of_further|done]|].
    destruct Hmine as [Hmine|Hmine].
    + destruct (Hfound Hmine) as [?|Hme]; [by left|]. right.
      unfold userInStages. rewrite Hme.
      apply bool_decide_eq_true, list_elem_of_here.
    + right. unfold userInStages in *.
      destruct (stage me) as [sm|]; [|done].
      apply bool_decide_eq_true in Hmine.
      by apply bool_decide_eq_true, list_elem_of_further.
Qed.

Lemma otherInStage_userInStages (ss : list GameState) (s : GameState) (o : Other) :
  s ∈ ss → otherInStage s o = true → userInStages ss (presence o) = true.
Proof.
  unfold otherInStage, userInStages. intros Hin.
  destruct (presence o) as [p|]; [|done].
  intros Hs. apply bool_decide_eq_true in Hs. rewrite Hs.
  by apply bool_decide_eq_true.
Qed.

(** Soundness: a true [allInStages] means that somebody else is connected,
    that all the others are in one and the same of the stages, and that the
    local player is in one of the stages; so every user is in one of them. *)
Lemma allInStages_true (ss : list GameState) (c : Client) :
  allInStages ss c = Some true →
  connectedOthers c ≠ []
  ∧ (∃ s, s ∈ ss ∧ othersAllIn s c = true)
  ∧ everyUserIn ss c = true.
Proof.
  intros H.
  destruct (decide (connectedOthers c = [])) as [He|Hne].
  { by rewrite (allInStages_lone _ _ He) in H. }
  split; [done|]. rewrite (allInStages_connected _ _ Hne) in H.
  destruct (myPresence c) as [me|] eqn:Hme.
  - destruct (someStage _ _ _ _) as [[[] []]|] eqn:Hsome; try done.
    apply someStage_true in Hsome as [(s & Hin & Hs) [?|Hmine]]; [done|].
    split; [by exists s|].
    unfold everyUserIn. rewrite Hme, Hmine. simpl.
    apply forallb_forall. intros o Ho.
    apply (otherInStage_userInStages ss s); [done|].
    by apply (proj1 (forallb_forall _ _) Hs).
  - destruct ss as [|s ss]; simpl in H; done.
Qed.

(** When the local player is in the first of the stages, the flag is set in
    the first round and the result is whether all the others are in one and
    the same of the stages. *)
Lemma allInStages_first (s : GameState) (ss : list GameState) (c : Client)
    (me : Presence) :
  myPresence c = Some me → stage me = Some s → connectedOthers c ≠ [] →
  allInStages (s :: ss) c = Some (existsb (λ s', othersAllIn s' c) (s :: ss)).
Proof.
  intros Hme Hs Hne. rewrite (allInStages_connected _ _ Hne), Hme. simpl.
  rewrite bool_decide_eq_true_2 by done. unfold othersAllIn.
  destruct (forallb (otherInStage s) (connectedOthers c)); [done|].
  rewrite someStage_found. simpl. by rewrite andb_true_r.
Qed.

Lemma othersAllIn_unique (s s' : GameState) (c : Client) :
  connectedOthers c ≠ [] →
  othersAllIn s c = true → othersAllIn s' c = true → s = s'.
Proof.
  unfold othersAllIn. destruct (connectedOthers c) as [|o os]; [done|].
  intros _. simpl. rewrite !andb_true_iff. intros [H _] [H' _].
  unfold otherInStage in *. destruct (presence o) as [p|]; [|done].
  apply bool_decide_eq_true in H. apply bool_decide_eq_true in H'. congruence.
Qed.

(** The call of the COMPLETE event, for a local player in COMPLETE: the
    loop stops at SCORES, before the flag is set, when all the others are in
    SCORES. *)
Lemma allInStages_complete (c : Client) (me : Presence) :
  myPresence c = Some me → stage me = Some COMPLETE → connectedOthers c ≠ [] →
  allInStages [SCORES; COMPLETE; WAITING] c
  = Some (negb (othersAllIn SCORES c)
          && (othersAllIn COMPLETE c || othersAllIn WAITING c)).
Proof.
  intros Hme Hs Hne. rewrite (allInStages_connected _ _ Hne), Hme. simpl.
  rewrite Hs. rewrite bool_decide_eq_false_2 by done.
  rewrite bool_decide_eq_true_2 by done. unfold othersAllIn.
  destruct (forallb (otherInStage SCORES) _); [done|].
  destruct (forallb (otherInStage COMPLETE) _); [done|].
  by destruct (forallb (otherInStage WAITING) _).
Qed.

(** ** The READY and COMPLETE game events *)

(** What the READY event does, exactly. *)
Lemma ready_event_exact (c : Client) (me : Presence) :
  gameState c = READY → myPresence c = Some me → stage me = Some READY →
  watchEffect c
  = Done (if bool_decide (connectedOthers c ≠ [])
             && (othersAllIn READY c || othersAllIn PLAYING c)
          then setTimeout StartPlaying c else c).
Proof.
  intros Hg Hme Hs. unfold watchEffect, gameEvents. rewrite Hg.
  destruct (decide (connectedOthers c = [])) as [He|Hne].
  - rewrite (allInStages_lone _ _ He).
    by rewrite bool_decide_eq_false_2 by (by intros ?).
  - rewrite (allInStages_first _ _ _ _ Hme Hs Hne).
    rewrite bool_decide_eq_true_2 by done. simpl. rewrite orb_false_r.
    by destruct (othersAllIn READY c || othersAllIn PLAYING c).
Qed.

(** What the COMPLETE event does, exactly. *)
Lemma complete_event_exact (c : Client) (me : Presence) :
  gameState c = COMPLETE → myPresence c = Some me → stage me = Some COMPLETE →
  watchEffect c
  = Done (if bool_decide (connectedOthers c ≠ [])
             && negb (othersAllIn SCORES c)
             && (othersAllIn COMPLETE c || othersAllIn WAITING c)
          then updateGameStage SCORES c else c).
Proof.
  intros Hg Hme Hs. unfold watchEffect, gameEvents. rewrite Hg.
  destruct (decide (connectedOthers c = [])) as [He|Hne].
  - rewrite (allInStages_lone _ _ He).
    by rewrite bool_decide_eq_false_2 by (by intros ?).
  - rewrite (allInStages_complete _ _ Hme Hs Hne).
    rewrite bool_decide_eq_true_2 by done. simpl.
    by destruct (negb (othersAllIn SCORES c)
                 && (othersAllIn COMPLETE c || othersAllIn WAITING c)).
Qed.

Lemma setTimeout_neq (cb : Timeout) (c : Client) : setTimeout cb c ≠ c.
Proof.
  intros H. apply (f_equal (λ c, length (timeouts c))) in H.
  simpl in H. rewrite length_app in H. simpl in H. lia.
Qed.

(** C1, amended: for every presence update received while the local client
    is in the READY stage, the game event leaves the stage as it is and at
    most arms the delayed (800 ms) move to PLAYING.  If it arms it, at least
    one other user is connected and every user, the local player and every
    other connected user, is in the READY or PLAYING stage.  It arms it
    whenever at least one other user is connected and the others are all in
    READY or all in PLAYING, and the armed timeout then sets PLAYING.  With
    no other user connected the client is left unchanged. *)
Theorem ready_event_starts_game (c : Client) (me : Presence) :
  gameState c = READY → myPresence c = Some me → stage me = Some READY →
  (armsStart c ∨ watchEffect c = Done c)
  ∧ gameState (stateOf (watchEffect c)) = READY
  ∧ (armsStart c →
       connectedOthers c ≠ [] ∧ everyUserIn [READY; PLAYING] c = true)
  ∧ (connectedOthers c ≠ [] →
     othersAllIn READY c = true ∨ othersAllIn PLAYING c = true →
       armsStart c
       ∧ gameState (runTimeout StartPlaying (setTimeout StartPlaying c))
         = PLAYING)
  ∧ (connectedOthers c = [] → watchEffect c = Done c).
Proof.
  intros Hg Hme Hs. unfold armsStart.
  pose proof (ready_event_exact c me Hg Hme Hs) as Hev.
  split; [rewrite Hev; case_match; [by left | by right]|].
  split; [rewrite Hev; by case_match|].
  split; [|split].
  - intros Harm. unfold watchEffect, gameEvents in Harm. rewrite Hg in Harm.
    destruct (allInStages [READY; PLAYING] c) as [[]|] eqn:Hall; try done.
    + by apply allInStages_true in Hall as (? & _ & ?).
    + injection Harm as Harm. symmetry in Harm. by apply setTimeout_neq in Harm.
  - intros Hne Hall. split.
    + rewrite Hev, bool_decide_eq_true_2 by done.
      by destruct Hall as [-> | ->]; rewrite ?orb_true_r.
    + simpl. rewrite (updateGameStage_available _ _ me); done.
  - intros He. rewrite Hev. by rewrite bool_decide_eq_false_2 by (by intros ?).
Qed.

(** C4, amended: for every presence update received while the local client
    is in the COMPLETE stage, the game event either moves the client to
    SCORES or leaves it unchanged.  If it moves, at least one other user is
    connected and every user, the local player and every other connected
    user, is in the SCORES, COMPLETE or WAITING stage.  It moves whenever at
    least one other user is connected and the others are all in COMPLETE or
    all in WAITING.  With no other user connected the client is left
    unchanged. *)
Theorem complete_event_shows_scores (c : Client) (me : Presence) :
  gameState c = COMPLETE → myPresence c = Some me → stage me = Some COMPLETE →
  (showsScores c ∨ watchEffect c = Done c)
  ∧ (gameState (stateOf (watchEffect c)) = SCORES →
       connectedOthers c ≠ []
       ∧ everyUserIn [SCORES; COMPLETE; WAITING] c = true)
  ∧ (connectedOthers c ≠ [] →
     othersAllIn COMPLETE c = true ∨ othersAllIn WAITING c = true →
       showsScores c)
  ∧ (connectedOthers c = [] → watchEffect c = Done c).
Proof.
  intros Hg Hme Hs. unfold showsScores.
  pose proof (complete_event_exact c me Hg Hme Hs) as Hev.
  assert (Hscores : gameState (updateGameStage SCORES c) = SCORES).
  { by rewrite (updateGameStage_available _ _ me). }
  split; [rewrite Hev; case_match; [by left | by right]|].
  split; [|split].
  - intros Hmoved. unfold watchEffect, gameEvents in Hmoved.
    rewrite Hg in Hmoved.
    destruct (allInStages [SCORES; COMPLETE; WAITING] c) as [[]|] eqn:Hall;
      simpl in Hmoved; try congruence.
    by apply allInStages_true in Hall as (? & _ & ?).
  - intros Hne Hall. split; [|done].
    rewrite Hev, bool_decide_eq_true_2 by done.
    assert (othersAllIn SCORES c = false) as ->.
    { destruct (othersAllIn SCORES c) eqn:Hsc; [|done].
      destruct Hall as [H|H];
        by pose proof (othersAllIn_unique _ _ _ Hne Hsc H). }
    by destruct Hall as [-> | ->]; rewrite ?orb_true_r.
  - intros He. rewrite Hev. by rewrite bool_decide_eq_false_2 by (by intros ?).
Qed.

(** ** The stage transitions of the state machine *)

Lemma updateGameStage_edge (s : GameState) (c : Client) :
  (gameState c, s) ∈ stageEdges →
  gameState (updateGameStage s c) = gameState c
  ∨ (gameState c, gameState (updateGameStage s c)) ∈ stageEdges.
Proof.
  intros Hedge. destruct (updateGameStage_gameState s c) as [-> | ->];
    [by right | by left].
Qed.

Lemma updateGameStage_same (c : Client) :
  gameState (updateGameStage (gameState c) c) = gameState c.
Proof. by destruct (updateGameStage_gameState (gameState c) c) as [-> | ->]. Qed.

Lemma gameEvents_edge (c : Client) :
  gameState (stateOf (gameEvents c)) = gameState c
  ∨ (gameState c, gameState (stateOf (gameEvents c))) ∈ stageEdges.
Proof.
  unfold gameEvents. destruct (gameState c) eqn:Hg; rewrite <- Hg;
    repeat case_match; simpl; try (by left);
    apply updateGameStage_edge; rewrite Hg;
    apply (bool_decide_unpack _); by vm_compute.
Qed.

Lemma inStage_one (s : GameState) (c : Client) :
  inStage [s] c = true → gameState c = s.
Proof.
  unfold inStage. intros H. apply bool_decide_eq_true in H.
  by apply list_elem_of_singleton in H.
Qed.

Lemma inStage_two (s1 s2 : GameState) (c : Client) :
  inStage [s1; s2] c = true → gameState c = s1 ∨ gameState c = s2.
Proof.
  unfold inStage. intros H. apply bool_decide_eq_true in H.
  apply elem_of_cons in H as [?|H]; [by left|].
  right. by apply list_elem_of_singleton in H.
Qed.

Lemma enterWaitingRoom_gameState (c : Client) :
  gameState (enterWaitingRoom c) = WAITING.
Proof.
  unfold enterWaitingRoom. by erewrite updateGameStage_available.
Qed.

Section Machine.

(** The word of the day and the order of the score board, as in [Game]. *)
Variable answer : string.
Variable answerDay : nat.
Variable sortUsers : list Presence → list Presence.

Lemma onGameComplete_gameState success grid now c :
  gameState (stateOf (onGameComplete answer answerDay sortUsers success grid now c)) = gameState c
  ∨ gameState (stateOf (onGameComplete answer answerDay sortUsers success grid now c)) = COMPLETE.
Proof.
  unfold onGameComplete.
  destruct (updateGameStage_gameState COMPLETE c) as [Hgs|Hgs];
    repeat (case_match; simpl; simplify_eq; try (by left); try (by right));
    first [ right; exact Hgs | left; by rewrite Hgs ].
Qed.

Lemma synced_initial (u : string) : synced (initialClient u).
Proof. by left. Qed.

Lemma synced_updateGameStage (s : GameState) (c : Client) :
  synced c → synced (updateGameStage s c).
Proof.
  intros Hs. destruct (myPresence c) as [me|] eqn:Hme.
  - rewrite (updateGameStage_available _ _ _ Hme). right. by eexists.
  - by rewrite (updateGameStage_unavailable _ _ Hme).
Qed.

Lemma synced_updateMyPresence (patch : Presence) (c : Client) :
  stage patch = None → gameState c ≠ CONNECTING →
  synced c → synced (updateMyPresence patch c).
Proof.
  intros Hp Hg [?|(me & Hme & Hst)]; [done|]. right.
  unfold updateMyPresence. rewrite Hme. simpl. eexists. split; [done|].
  simpl. by rewrite Hp.
Qed.

Lemma synced_ext (c c' : Client) :
  gameState c' = gameState c → myPresence c' = myPresence c →
  synced c → synced c'.
Proof. unfold synced. intros -> ->. done. Qed.

Lemma synced_gameEvents (c : Client) : synced c → synced (stateOf (gameEvents c)).
Proof.
  intros Hs. unfold gameEvents.
  repeat case_match; simpl; try done; by apply synced_updateGameStage.
Qed.

Lemma synced_enterWaitingRoom (c : Client) : synced (enterWaitingRoom c).
Proof.
  unfold enterWaitingRoom.
  erewrite updateGameStage_available; [|reflexivity]. right. by eexists.
Qed.

Lemma synced_onGameComplete success grid now (c : Client) :
  gameState c ≠ CONNECTING → synced c →
  synced (stateOf (onGameComplete answer answerDay sortUsers success grid now c)).
Proof.
  intros Hg Hs. unfold onGameComplete.
  pose proof (synced_updateGameStage COMPLETE c Hs) as Hs1.
  assert (Hg1 : gameState (updateGameStage COMPLETE c) ≠ CONNECTING).
  { destruct (updateGameStage_gameState COMPLETE c) as [-> | ->]; done. }
  destruct (savedScores c) as [list|]; [|done].
  destruct success.
  - destruct (myPresence (updateGameStage COMPLETE c)) as [me|] eqn:Hme;
      [|done].
    set (c2 := setTimeout ConfettiOff
                 (setConfettiAnimation true (updateGameStage COMPLETE c))).
    assert (Hs3 : synced (updateMyPresence (successPatch answer now me) c2)).
    { apply synced_updateMyPresence; [done|done|].
      by apply (synced_ext (updateGameStage COMPLETE c)). }
    destruct list as [l|]; [|done]. simpl.
    by apply (synced_ext (updateMyPresence (successPatch answer now me) c2)).
  - assert (Hs3 : synced (updateMyPresence (timePatch now)
                            (updateGameStage COMPLETE c))).
    { by apply synced_updateMyPresence. }
    destruct list as [l|]; [|done]. simpl.
    by apply (synced_ext (updateMyPresence (timePatch now)
                            (updateGameStage COMPLETE c))).
Qed.

(** Every step keeps the stage and the presence in step. *)
Lemma synced_step (c : Client) (e : Event) (c' : Client) :
  step answer answerDay sortUsers c e c' → synced c → synced c'.
Proof.
  intros [Hen <-] Hs.
  destruct e as [ | | | | | | | | | | i];
    cbn [handle enabled stateOf] in *.
  - by apply synced_gameEvents.
  - apply bool_decide_eq_true in Hen. left.
    destruct Hs as [?|(me & Hme & _)]; [done|congruence].
  - done.
  - done.
  - done.
  - apply synced_enterWaitingRoom.
  - by apply synced_updateGameStage.
  - by apply synced_updateGameStage.
  - apply synced_updateMyPresence; [done| |done].
    apply inStage_two in Hen as [-> | ->]; done.
  - apply synced_onGameComplete; [|done].
    apply inStage_two in Hen as [-> | ->]; done.
  - destruct (timeouts c !! i) as [[]|]; simpl; [|done|done].
    by apply synced_updateGameStage.
Qed.

(** Hence every client that a run of events reaches from the initial state
    has its stage and its presence in step. *)
Lemma synced_run (es : list Event) (c c' : Client) :
  run answer answerDay sortUsers es c = Some c' → synced c → synced c'.
Proof.
  revert c. induction es as [|e es IH]; intros c; simpl.
  - by intros [= ->].
  - destruct (enabled e c) eqn:Hen; [|done]. intros Hrun Hs.
    apply (IH _ Hrun). by apply (synced_step c e).
Qed.

(** C2, amended: every stage change of the per-client state machine follows
    one of the edges CONNECTING → INTRO, INTRO → WAITING, INTRO → SCORES,
    WAITING → READY, READY → WAITING, READY → PLAYING, PLAYING → COMPLETE
    and COMPLETE → SCORES, or is made by the delayed start armed in READY,
    which sets PLAYING when it fires. *)
Theorem stage_change_follows_edges (c : Client) (e : Event) (c' : Client) :
  step answer answerDay sortUsers c e c' →
  gameState c' = gameState c
  ∨ (gameState c, gameState c') ∈ stageEdges
  ∨ (∃ i, e = Fire i ∧ timeouts c !! i = Some StartPlaying
          ∧ gameState c' = PLAYING).
Proof.
  intros [Hen <-].
  destruct e as [ | | | | | | | | | success grid now | i];
    cbn [handle enabled stateOf] in *;
    try (by left).
  - destruct (gameEvents_edge c) as [?|?]; [by left | by right; left].
  - apply andb_true_iff in Hen as [Hen _]. apply inStage_one in Hen.
    right; left. rewrite enterWaitingRoom_gameState, Hen.
    apply (bool_decide_unpack _). by vm_compute.
  - apply andb_true_iff in Hen as [Hen _].
    apply andb_true_iff in Hen as [Hen _].
    apply inStage_two in Hen as [Hg|Hg].
    + destruct (updateGameStage_edge READY c) as [?|?];
        [rewrite Hg; apply (bool_decide_unpack _); by vm_compute
        | by left | by right; left].
    + left. rewrite <- Hg at 1. apply updateGameStage_same.
  - apply andb_true_iff in Hen as [Hen _].
    apply inStage_two in Hen as [Hg|Hg].
    + left. rewrite <- Hg at 1. apply updateGameStage_same.
    + destruct (updateGameStage_edge WAITING c) as [?|?];
        [rewrite Hg; apply (bool_decide_unpack _); by vm_compute
        | by left | by right; left].
  - destruct (onGameComplete_gameState success grid now c) as [?|Hc];
      [by left|]. rewrite Hc.
    apply inStage_two in Hen as [-> | ->]; [right; left | by left].
    apply (bool_decide_unpack _). by vm_compute.
  - destruct (timeouts c !! i) as [[]|] eqn:Hi; simpl; [|by left|by left].
    destruct (updateGameStage_gameState PLAYING
                (setTimeouts (delete i (timeouts c)) c)) as [Hp | ->].
    + right; right. by exists i.
    + by left.
Qed.

End Machine.

(** ** Games that can be reached *)

Lemma loneReady_reachable :
  run exampleAnswer exampleDay exampleOrder becomeReady disconnected
  = Some loneReady.
Proof. by vm_compute. Qed.

Lemma loneComplete_reachable :
  view <$> run exampleAnswer exampleDay exampleOrder finishAlone disconnected
  = Some (view loneComplete).
Proof. by vm_compute. Qed.

Lemma bobAtScores_reachable :
  view <$> run exampleAnswer exampleDay exampleOrder finishAfterBob disconnected
  = Some (view bobAtScores).
Proof. by vm_compute. Qed.

Lemma introWithScores_reachable :
  run exampleAnswer exampleDay exampleOrder
    [ Connected;
      ScoresChanged (Some (Some [playerAt "bob" COMPLETE 5 (Millis 1000)]));
      OthersChanged (Some []); Watch ] disconnected
  = Some introWithScores.
Proof. by vm_compute. Qed.

(** * The claims as stated, at concrete games *)

(** C1, as stated, fails: with Ada ready and nobody else connected, every
    user is in the READY or PLAYING stage, yet the READY event arms nothing
    and leaves the client as it is. *)
Lemma ready_event_lone_counterexample :
  gameState loneReady = READY
  ∧ watchEffect loneReady = Done loneReady
  ∧ ¬ (armsStart loneReady ↔ everyUserIn [READY; PLAYING] loneReady = true).
Proof.
  split; [done|]. split; [done|].
  intros [_ H]. specialize (H eq_refl). unfold armsStart in H.
  vm_compute in H. discriminate H.
Qed.

(** C4, as stated, fails: with Ada finished and nobody else connected, every
    user is in the SCORES, COMPLETE or WAITING stage, yet the COMPLETE event
    leaves the client in COMPLETE. *)
Lemma complete_event_lone_counterexample :
  gameState loneComplete = COMPLETE
  ∧ watchEffect loneComplete = Done loneComplete
  ∧ ¬ (showsScores loneComplete
       ↔ everyUserIn [SCORES; COMPLETE; WAITING] loneComplete = true).
Proof.
  split; [done|]. split; [done|].
  intros [_ H]. specialize (H eq_refl). destruct H as [H _].
  vm_compute in H. discriminate H.
Qed.

(** C2, as stated, fails: the INTRO event of a client that finds saved
    scores moves it from INTRO straight to SCORES, skipping four stages, and
    the un-ready button moves a client from READY back to WAITING. *)
Lemma stage_order_counterexample :
  (step exampleAnswer exampleDay exampleOrder
        introWithScores Watch (updateGameStage SCORES introWithScores)
   ∧ gameState introWithScores = INTRO
   ∧ gameState (updateGameStage SCORES introWithScores) = SCORES
   ∧ ¬ followsOrder introWithScores (updateGameStage SCORES introWithScores))
  ∧ (step exampleAnswer exampleDay exampleOrder
          loneReady ClickUnready (updateGameStage WAITING loneReady)
     ∧ gameState loneReady = READY
     ∧ gameState (updateGameStage WAITING loneReady) = WAITING
     ∧ ¬ followsOrder loneReady (updateGameStage WAITING loneReady)).
Proof.
  split; (split; [by split|]); (split; [done|]); (split; [done|]);
    intros H; unfold followsOrder, nextStage in H; simpl in H;
    by specialize (H ltac:(done)).
Qed.

(** C8: [allInStages] misses the local player's stage when the loop stops
    early.  With Ada in COMPLETE and Bob, the only other user, in SCORES,
    there is a single stage of the list, SCORES, that every other user is
    in, and Ada's stage is in the list; yet the call of the COMPLETE event
    returns false, and the event leaves Ada in COMPLETE. *)
Theorem allInStages_misses_own_stage :
  connectedOthers bobAtScores ≠ []
  ∧ (∃ s, s ∈ [SCORES; COMPLETE; WAITING] ∧ othersAllIn s bobAtScores = true)
  ∧ userInStages [SCORES; COMPLETE; WAITING] (myPresence bobAtScores) = true
  ∧ allInStages [SCORES; COMPLETE; WAITING] bobAtScores = Some false
  ∧ watchEffect bobAtScores = Done bobAtScores.
Proof.
  split; [done|]. split; [|done].
  exists SCORES. split; [apply list_elem_of_here|done].
Qed.

(** * The theorems at concrete games *)

(** Ada and Bob both ready: the READY event arms the start. *)
Lemma ready_event_starts_game_witness :
  (gameState readyWithBob = READY
   ∧ myPresence readyWithBob = Some (playerAt "ada" READY 0 Infinity)
   ∧ stage (playerAt "ada" READY 0 Infinity) = Some READY)
  ∧ armsStart readyWithBob
  ∧ everyUserIn [READY; PLAYING] readyWithBob = true.
Proof.
  split; [by repeat split|].
  destruct (ready_event_starts_game readyWithBob
              (playerAt "ada" READY 0 Infinity) eq_refl eq_refl eq_refl)
    as (_ & _ & Hsound & Harm & _).
  assert (Ha : armsStart readyWithBob).
  { apply Harm; [discriminate | left; reflexivity]. }
  split; [exact Ha | exact (proj2 (Hsound Ha))].
Defined.

(** Ada and Bob both finished: the COMPLETE event shows the scores. *)
Lemma complete_event_shows_scores_witness :
  (gameState completeWithBob = COMPLETE
   ∧ myPresence completeWithBob = Some (playerAt "ada" COMPLETE 0 (Millis 1000))
   ∧ stage (playerAt "ada" COMPLETE 0 (Millis 1000)) = Some COMPLETE)
  ∧ showsScores completeWithBob.
Proof.
  split; [by repeat split|].
  destruct (complete_event_shows_scores completeWithBob
              (playerAt "ada" COMPLETE 0 (Millis 1000))
              eq_refl eq_refl eq_refl)
    as (_ & _ & Hmove & _).
  apply Hmove; [discriminate | left; reflexivity].
Defined.

(** The jump from INTRO to SCORES is one of the edges. *)
Lemma stage_change_follows_edges_witness :
  step exampleAnswer exampleDay exampleOrder
       introWithScores Watch (updateGameStage SCORES introWithScores)
  ∧ (gameState (updateGameStage SCORES introWithScores)
     = gameState introWithScores
     ∨ (gameState introWithScores,
        gameState (updateGameStage SCORES introWithScores)) ∈ stageEdges
     ∨ ∃ i, Watch = Fire i
            ∧ timeouts introWithScores !! i = Some StartPlaying
            ∧ gameState (updateGameStage SCORES introWithScores) = PLAYING).
Proof.
  assert (Hstep : step exampleAnswer exampleDay exampleOrder
                    introWithScores Watch
                    (updateGameStage SCORES introWithScores)).
  { split; reflexivity. }
  split; [exact Hstep|].
  exact (stage_change_follows_edges exampleAnswer exampleDay exampleOrder
           introWithScores Watch _ Hstep).
Defined.

(** Ada wins while playing with Bob. *)
Lemma onGameComplete_available_witness :
  (myPresence playingWithBob = Some (playerAt "ada" PLAYING 0 Infinity)
   ∧ savedScores playingWithBob = Some (Some []))
  ∧ ∃ c' me',
      onGameComplete exampleAnswer exampleDay exampleOrder
        true None 1000 playingWithBob = Done c'
      ∧ gameState c' = COMPLETE
      ∧ myPresence c' = Some me'
      ∧ stage me' = Some COMPLETE
      ∧ timeFinished me' = Some (Millis 1000)
      ∧ isFinite (Millis 1000) = true
      ∧ (true = true →
           ∃ sc, score me' = Some sc
                 ∧ sc !! CORRECT = Some (Num (String.length exampleAnswer)))
      ∧ (true = false
         → score me' = score (playerAt "ada" PLAYING 0 Infinity))
      ∧ savedScores c' = Some (Some ([] ++ [me'])).
Proof.
  split; [by split|].
  exact (onGameComplete_available exampleAnswer exampleDay exampleOrder
           true None 1000 playingWithBob (playerAt "ada" PLAYING 0 Infinity)
           [] eq_refl eq_refl).
Defined.

(** [updateGameStage] on a connected and on a disconnected client. *)
Lemma updateGameStage_atomic_witness :
  (myPresence loneReady = Some (playerAt "ada" READY 0 Infinity)
   ∧ myPresence disconnected = None)
  ∧ gameState (updateGameStage WAITING loneReady) = WAITING
  ∧ (stage <$> myPresence (updateGameStage WAITING loneReady))
    = Some (Some WAITING)
  ∧ updateGameStage INTRO disconnected = disconnected.
Proof.
  split; [by split|].
  destruct (updateGameStage_atomic WAITING loneReady) as [Hsome _].
  destruct (Hsome _ eq_refl) as (me' & Hme' & Hg & Hst & _).
  split; [exact Hg|]. split; [by rewrite Hme', <- Hst|].
  exact (proj2 (updateGameStage_atomic INTRO disconnected) eq_refl).
Defined.

(** The two sides of the screen while Ada plays with Bob. *)
Lemma othersFilterOdd_partition_witness :
  othersFilterOdd true playingWithBob ++ othersFilterOdd false playingWithBob
  ≡ₚ filter (λ o, is_Some (score o)) (othersPresence playingWithBob).
Proof.
  exact (proj2 (proj2 (proj2 (proj2 (proj2
           (othersFilterOdd_partition playingWithBob)))))).
Defined.

(** * Further properties of the code *)

(** ** The CONNECTING and INTRO game events *)

(** The CONNECTING event moves the client to INTRO exactly when the local
    presence and the scores list are both available; otherwise it leaves the
    client as it is, and it throws exactly when the presence is available
    but [savedScores.value] is missing. *)
Theorem connecting_event_iff (c : Client) :
  gameState c = CONNECTING →
  (gameState (stateOf (watchEffect c)) = INTRO
   ↔ is_Some (myPresence c) ∧ ∃ l, savedScores c = Some (Some l))
  ∧ (gameState (stateOf (watchEffect c)) = INTRO ∨ stateOf (watchEffect c) = c)
  ∧ (watchEffect c = Throw c ↔ is_Some (myPresence c) ∧ savedScores c = None).
Proof.
  intros Hg. unfold watchEffect, gameEvents. rewrite Hg.
  destruct (myPresence c) as [me|] eqn:Hme.
  - destruct (savedScores c) as [[l|]|] eqn:Hsc; simpl.
    + rewrite (updateGameStage_available _ _ _ Hme). simpl.
      split; [split; [by eauto|done]|]. split; [by left|].
      split; [done|]. by intros [_ ?].
    + rewrite Hg. split; [split; [done|by intros [_ [? ?]]]|].
      split; [by right|]. split; [done|by intros [_ ?]].
    + rewrite Hg. split; [split; [done|by intros [_ [? ?]]]|].
      split; [by right|]. split; [done|by intros _].
  - simpl. rewrite Hg. split; [split; [done|by intros [[? ?] _]]|].
    split; [by right|]. split; [done|by intros [[? ?] _]].
Qed.

(** The INTRO event of a connected client moves it to SCORES exactly when
    the saved scores list is there and not empty; otherwise it leaves the
    client as it is. *)
Theorem intro_event_iff (c : Client) :
  gameState c = INTRO → is_Some (myPresence c) →
  (gameState (stateOf (watchEffect c)) = SCORES
   ↔ ∃ p l, savedScores c = Some (Some (p :: l)))
  ∧ (gameState (stateOf (watchEffect c)) = SCORES ∨ stateOf (watchEffect c) = c).
Proof.
  intros Hg [me Hme]. unfold watchEffect, gameEvents. rewrite Hg.
  destruct (savedScores c) as [[[|p l]|]|] eqn:Hsc; simpl; rewrite ?Hg.
  - split; [split; [done|by intros (? & ? & ?)]|by right].
  - rewrite (updateGameStage_available _ _ _ Hme). simpl.
    split; [split; [by eauto|done]|by left].
  - split; [split; [done|by intros (? & ? & ?)]|by right].
  - split; [split; [done|by intros (? & ? & ?)]|by right].
Qed.

(** A client that connects when scores for the word are already saved goes
    from CONNECTING to INTRO and on to SCORES in two runs of the effect,
    without entering the waiting room: its presence only gets the stage. *)
Theorem late_joiner_sees_scores (c : Client) (me p : Presence)
    (l : list Presence) :
  gameState c = CONNECTING → myPresence c = Some me →
  savedScores c = Some (Some (p :: l)) →
  ∃ c1 c2,
    watchEffect c = Done c1 ∧ gameState c1 = INTRO
    ∧ watchEffect c1 = Done c2 ∧ gameState c2 = SCORES
    ∧ myPresence c2 = Some (mergePresence me (stagePatch SCORES))
    ∧ savedScores c2 = savedScores c ∧ others c2 = others c.
Proof.
  intros Hg Hme Hsc.
  set (c1 := setMyPresence (Some (mergePresence me (stagePatch INTRO)))
               (setGameState INTRO c)).
  exists c1, (updateGameStage SCORES c1).
  split.
  { unfold watchEffect, gameEvents. rewrite Hg, Hme, Hsc.
    by rewrite (updateGameStage_available INTRO c me Hme). }
  split; [done|]. split.
  { unfold watchEffect, gameEvents. simpl. by rewrite Hsc. }
  repeat split; done.
Qed.

(** ** [allInStages], exactly *)

Lemma someStage_visited (os : list Other) (me : Presence) (found : bool)
    (ss : list GameState) :
  someStage os (Some me) found ss
  = Some (existsb (λ s, forallb (otherInStage s) os) ss,
          found || userInStages (visited os ss) (Some me)).
Proof.
  assert (Hnil : userInStages [] (Some me) = false).
  { unfold userInStages. destruct (stage me); [|done].
    apply bool_decide_eq_false_2, not_elem_of_nil. }
  assert (Hin : ∀ s rest, userInStages (s :: rest) (Some me)
                 = bool_decide (stage me = Some s)
                   || userInStages rest (Some me)).
  { intros s rest. unfold userInStages. destruct (stage me) as [sm|]; [|done].
    destruct (decide (sm = s)) as [->|Hne].
    - rewrite (bool_decide_eq_true_2 (s ∈ s :: rest))
        by apply list_elem_of_here.
      by rewrite (bool_decide_eq_true_2 (Some s = Some s)) by done.
    - rewrite (bool_decide_eq_false_2 (Some sm = Some s)) by congruence.
      cbn [orb]. apply bool_decide_ext. rewrite elem_of_cons.
      split; [by intros [?|?] | by right]. }
  revert found. induction ss as [|s ss IH]; intros found.
  { cbn [someStage visited existsb]. by rewrite Hnil, orb_false_r. }
  cbn [someStage visited existsb].
  destruct (forallb (otherInStage s) os); cbn [orb].
  - destruct found; cbn [orb]; [done|]. by rewrite Hin, Hnil, orb_false_r.
  - destruct found; cbn [orb].
    + by rewrite IH.
    + by rewrite IH, Hin.
Qed.

(** [allInStages] with the local presence available returns true exactly
    when somebody else is connected, all the others are in one and the same
    stage of the list, and the local player's stage is among the stages of
    the list up to and including the first stage that all the others are
    in. *)
Theorem allInStages_exact (ss : list GameState) (c : Client) (me : Presence) :
  myPresence c = Some me →
  allInStages ss c
  = Some (bool_decide (connectedOthers c ≠ [])
          && existsb (λ s, othersAllIn s c) ss
          && userInStages (visited (connectedOthers c) ss) (Some me)).
Proof.
  intros Hme. destruct (decide (connectedOthers c = [])) as [He|Hne].
  - rewrite (allInStages_lone _ _ He).
    by rewrite bool_decide_eq_false_2 by (by intros ?).
  - rewrite (allInStages_connected _ _ Hne), Hme, someStage_visited.
    by rewrite bool_decide_eq_true_2 by done.
Qed.

(** [allInStages] throws exactly when the local presence is unavailable
    while somebody else is connected and the list of stages is not empty. *)
Theorem allInStages_throws_iff (ss : list GameState) (c : Client) :
  allInStages ss c = None
  ↔ myPresence c = None ∧ connectedOthers c ≠ [] ∧ ss ≠ [].
Proof.
  destruct (decide (connectedOthers c = [])) as [He|Hne].
  { rewrite (allInStages_lone _ _ He). split; [done|by intros (_ & ? & _)]. }
  destruct (myPresence c) as [me|] eqn:Hme.
  { rewrite (allInStages_exact _ _ _ Hme). split; [done|by intros (? & _)]. }
  rewrite (allInStages_connected _ _ Hne), Hme.
  destruct ss as [|s ss]; simpl; [split; [done|by intros (_ & _ & ?)]|].
  done.
Qed.

(** Another user without a presence, or whose presence has no stage yet,
    makes [allInStages] false whatever the stages asked for. *)
Theorem allInStages_blocked (ss : list GameState) (c : Client)
    (me : Presence) (o : Other) :
  myPresence c = Some me → o ∈ connectedOthers c →
  (presence o ≫= stage) = None →
  allInStages ss c = Some false.
Proof.
  intros Hme Ho Hst. rewrite (allInStages_exact _ _ _ Hme).
  assert (Hnone : existsb (λ s, othersAllIn s c) ss = false).
  { apply not_true_is_false. intros Hex.
    apply existsb_exists in Hex as (s & _ & Hs). unfold othersAllIn in Hs.
    apply (proj1 (forallb_forall _ _)) with (x := o) in Hs;
      [|by apply list_elem_of_In].
    unfold otherInStage in Hs. destruct (presence o) as [p|]; [|done].
    simpl in Hst. apply bool_decide_eq_true in Hs. congruence. }
  by rewrite Hnone, andb_false_r.
Qed.

(** ** The READY and COMPLETE game events, exactly *)

(** In READY the event arms the delayed start exactly when somebody else is
    connected and the others are all in READY or all in PLAYING. *)
Theorem ready_event_iff (c : Client) (me : Presence) :
  gameState c = READY → myPresence c = Some me → stage me = Some READY →
  armsStart c
  ↔ connectedOthers c ≠ []
    ∧ (othersAllIn READY c = true ∨ othersAllIn PLAYING c = true).
Proof.
  intros Hg Hme Hs. unfold armsStart.
  rewrite (ready_event_exact c me Hg Hme Hs). split.
  - intros H. destruct (decide (connectedOthers c = [])) as [He|Hne].
    + rewrite bool_decide_eq_false_2 in H by (by intros ?). simpl in H.
      injection H as H. symmetry in H. by apply setTimeout_neq in H.
    + split; [done|]. rewrite bool_decide_eq_true_2 in H by done. simpl in H.
      destruct (othersAllIn READY c); [by left|].
      destruct (othersAllIn PLAYING c); [by right|]. simpl in H.
      injection H as H. symmetry in H. by apply setTimeout_neq in H.
  - intros [Hne Hall]. rewrite bool_decide_eq_true_2 by done.
    by destruct Hall as [-> | ->]; rewrite ?orb_true_r.
Qed.

(** In COMPLETE the event moves the client to SCORES exactly when somebody
    else is connected and the others are all in COMPLETE or all in WAITING;
    when the others are all in SCORES it leaves the client in COMPLETE. *)
Theorem complete_event_iff (c : Client) (me : Presence) :
  gameState c = COMPLETE → myPresence c = Some me → stage me = Some COMPLETE →
  (gameState (stateOf (watchEffect c)) = SCORES
   ↔ connectedOthers c ≠ []
     ∧ (othersAllIn COMPLETE c = true ∨ othersAllIn WAITING c = true))
  ∧ (connectedOthers c ≠ [] → othersAllIn SCORES c = true →
     watchEffect c = Done c).
Proof.
  intros Hg Hme Hs.
  rewrite (complete_event_exact c me Hg Hme Hs).
  assert (Hmoved : gameState (updateGameStage SCORES c) = SCORES).
  { by rewrite (updateGameStage_available _ _ me). }
  split; [split|].
  - intros H. destruct (decide (connectedOthers c = [])) as [He|Hne].
    + rewrite bool_decide_eq_false_2 in H by (by intros ?). simpl in H.
      congruence.
    + split; [done|]. rewrite bool_decide_eq_true_2 in H by done.
      destruct (othersAllIn COMPLETE c); [by left|].
      destruct (othersAllIn WAITING c); [by right|].
      rewrite andb_false_r in H. simpl in H. congruence.
  - intros [Hne Hall]. rewrite bool_decide_eq_true_2 by done.
    assert (othersAllIn SCORES c = false) as ->.
    { destruct (othersAllIn SCORES c) eqn:Hsc; [|done].
      destruct Hall as [H|H];
        by pose proof (othersAllIn_unique _ _ _ Hne Hsc H). }
    by destruct Hall as [-> | ->]; rewrite ?orb_true_r.
  - intros Hne Hsc. by rewrite Hsc, andb_false_r.
Qed.

(** ** Runs of the state machine *)

Lemma updateGameStage_timeouts (s : GameState) (c : Client) :
  timeouts (updateGameStage s c) = timeouts c.
Proof. unfold updateGameStage. by destruct (myPresence c). Qed.

Lemma lookup_delete_other (i : nat) (cb : Timeout) (ts : list Timeout) :
  cb ∈ delete i ts → cb ∈ ts.
Proof.
  apply (sublist_subseteq (delete i ts) ts), sublist_delete.
Qed.

Section Runs.

(** The word of the day and the order of the score board, as in [Game]. *)
Variable answer : string.
Variable answerDay : nat.
Variable sortUsers : list Presence → list Presence.

(** A property that every enabled step by an event in [Q] keeps is kept by
    every run of such events. *)
Lemma run_preserves (Q : Event → bool) (P : Client → Prop) :
  (∀ c e, Q e = true → enabled e c = true → P c →
          P (stateOf (handle answer answerDay sortUsers e c))) →
  ∀ es c c', forallb Q es = true →
    run answer answerDay sortUsers es c = Some c' → P c → P c'.
Proof.
  intros Hstep es. induction es as [|e es IH]; intros c c' HQ Hrun HP.
  - simpl in Hrun. by injection Hrun as <-.
  - simpl in HQ. apply andb_true_iff in HQ as [He Hes].
    cbn [run] in Hrun. destruct (enabled e c) eqn:Hen; [|done].
    apply (IH _ _ Hes Hrun). by apply Hstep.
Qed.

(** The delayed start is not cancelled by the un-ready button: a client in
    READY whose event armed the start, and whose player then says he is not
    ready, is in WAITING until the timeout fires and in PLAYING, presence
    included, afterwards. *)
Theorem unready_does_not_cancel_start (c : Client) (me : Presence) :
  gameState c = READY → myPresence c = Some me → stage me = Some READY →
  armsStart c →
  let armed := stateOf (watchEffect c) in
  let unready := stateOf (handle answer answerDay sortUsers ClickUnready armed) in
  let fire := Fire (length (timeouts c)) in
  let started := stateOf (handle answer answerDay sortUsers fire unready) in
  enabled ClickUnready armed = true
  ∧ gameState unready = WAITING
  ∧ enabled fire unready = true
  ∧ gameState started = PLAYING
  ∧ (stage <$> myPresence started) = Some (Some PLAYING).
Proof.
  intros Hg Hme Hs Harm. unfold armsStart in Harm. rewrite Harm.
  cbn [stateOf handle].
  assert (Hme1 : myPresence (setTimeout StartPlaying c) = Some me) by done.
  rewrite (updateGameStage_available WAITING _ me Hme1).
  split.
  { cbn [enabled]. unfold inStage, myStageIs. simpl. by rewrite Hg, Hme, Hs. }
  split; [done|]. split.
  { cbn [enabled]. apply bool_decide_eq_true. simpl.
    rewrite length_app. simpl. lia. }
  simpl. rewrite lookup_app_r by done. rewrite Nat.sub_diag. simpl.
  unfold updateGameStage, updateMyPresence. simpl. done.
Qed.

(** Nobody plays alone: as long as the service never delivers another user,
    a client started from the initial state never reaches PLAYING or
    COMPLETE, whatever the player does. *)
Theorem lone_player_never_plays (u : string) (es : list Event) (c : Client) :
  forallb bringsNobody es = true →
  run answer answerDay sortUsers es (initialClient u) = Some c →
  connectedOthers c = [] ∧ gameState c ≠ PLAYING ∧ gameState c ≠ COMPLETE.
Proof.
  intros Hes Hrun.
  set (P := λ c : Client,
         connectedOthers c = [] ∧ (StartPlaying ∉ timeouts c)
         ∧ gameState c ≠ PLAYING ∧ gameState c ≠ COMPLETE).
  assert (Hup : ∀ s c, s ≠ PLAYING → s ≠ COMPLETE → P c →
                       P (updateGameStage s c)).
  { intros s c0 ? ? (Ho & Ht & Hp & Hc). unfold P, connectedOthers.
    rewrite updateGameStage_others, updateGameStage_timeouts.
    repeat split; try done;
      by destruct (updateGameStage_gameState s c0) as [-> | ->]. }
  assert (HP : P c); [|by destruct HP as (? & _ & ? & ?)].
  apply (run_preserves bringsNobody P) with (es := es) (c := initialClient u);
    [|done|done|].
  2: { unfold P. simpl. repeat split; try done. apply not_elem_of_nil. }
  clear c Hrun. intros c e HQ Hen HP.
  destruct e as [ | |o| | | | | | | |i]; cbn [handle enabled stateOf] in *.
  - unfold watchEffect, gameEvents.
    destruct (gameState c) eqn:Hg; try done.
    + repeat case_match; simpl; try done; by apply Hup.
    + repeat case_match; simpl; try done; by apply Hup.
    + destruct HP as (Ho & ?). by rewrite (allInStages_lone _ _ Ho).
    + by destruct HP as (_ & _ & _ & ?).
  - done.
  - destruct HP as (_ & Ht & Hp & Hc). unfold P, connectedOthers. simpl.
    repeat split; try done. by destruct o as [[|]|].
  - done.
  - done.
  - unfold enterWaitingRoom. apply Hup; [done|done|].
    destruct HP as (Ho & Ht & Hp & Hc). by repeat split.
  - by apply Hup.
  - by apply Hup.
  - apply inStage_two in Hen. destruct HP as (_ & _ & ? & ?).
    by destruct Hen.
  - apply inStage_two in Hen. destruct HP as (_ & _ & ? & ?).
    by destruct Hen.
  - destruct HP as (Ho & Ht & Hp & Hc).
    destruct (timeouts c !! i) as [cb|] eqn:Hi; [|done]. simpl.
    assert (Hd : StartPlaying ∉ delete i (timeouts c)).
    { intros Hin. by apply Ht, (lookup_delete_other i). }
    destruct cb.
    + exfalso. apply Ht. by apply list_elem_of_lookup_2 in Hi.
    + by repeat split.
Qed.

(** SCORES is final: once a client is in SCORES with no delayed start
    pending, no event moves it to another stage. *)
Theorem scores_is_final (es : list Event) (c c' : Client) :
  gameState c = SCORES → StartPlaying ∉ timeouts c →
  run answer answerDay sortUsers es c = Some c' →
  gameState c' = SCORES ∧ StartPlaying ∉ timeouts c'.
Proof.
  intros Hg Ht Hrun.
  apply (run_preserves (λ _, true)
           (λ c, gameState c = SCORES ∧ StartPlaying ∉ timeouts c))
    with (es := es) (c := c); [| |done|done].
  2: { clear. by induction es. }
  clear. intros c e _ Hen [Hg Ht].
  destruct e as [ | |o| | | | | | | |i]; cbn [handle enabled stateOf] in *;
    try done.
  - unfold watchEffect, gameEvents. by rewrite Hg.
  - apply andb_true_iff in Hen as [Hen _]. apply inStage_one in Hen.
    congruence.
  - apply andb_true_iff in Hen as [Hen _].
    apply andb_true_iff in Hen as [Hen _].
    apply inStage_two in Hen as [?|?]; congruence.
  - apply andb_true_iff in Hen as [Hen _].
    apply inStage_two in Hen as [?|?]; congruence.
  - apply inStage_two in Hen as [?|?]; congruence.
  - destruct (timeouts c !! i) as [cb|] eqn:Hi; [|done]. simpl.
    assert (Hd : StartPlaying ∉ delete i (timeouts c)).
    { intros Hin. by apply Ht, (lookup_delete_other i). }
    destruct cb; [|done].
    exfalso. apply Ht. by apply list_elem_of_lookup_2 in Hi.
Qed.

(** The stage variable and the presence never drift apart: in every client
    reached from the initial state, outside of CONNECTING the presence is
    available and its stage field equals [gameState]. *)
Theorem stage_in_sync (u : string) (es : list Event) (c : Client) :
  run answer answerDay sortUsers es (initialClient u) = Some c →
  gameState c = CONNECTING
  ∨ ∃ me, myPresence c = Some me ∧ stage me = Some (gameState c).
Proof.
  intros Hrun.
  apply (synced_run answer answerDay sortUsers es (initialClient u) c Hrun).
  apply synced_initial.
Qed.

End Runs.

(** ** [enterWaitingRoom] and [onLettersGuessed] *)

Lemma enterWaitingRoom_myPresence (c : Client) :
  myPresence (enterWaitingRoom c)
  = Some (playerAt (username c) WAITING 0 Infinity).
Proof.
  unfold enterWaitingRoom.
  erewrite updateGameStage_available; [|reflexivity]. done.
Qed.

(** Entering the waiting room resets the presence whatever it was before:
    the name is the chosen username, the board is empty, the score is zero,
    the finish time is [Infinity], and the stage, first written as the old
    [gameState], ends as WAITING like [gameState] itself.  Nothing else of
    the client changes. *)
Theorem enterWaitingRoom_resets (c : Client) :
  gameState (enterWaitingRoom c) = WAITING
  ∧ myPresence (enterWaitingRoom c)
    = Some (playerAt (username c) WAITING 0 Infinity)
  ∧ (username (enterWaitingRoom c), others (enterWaitingRoom c),
     savedScores (enterWaitingRoom c), timeouts (enterWaitingRoom c))
    = (username c, others c, savedScores c, timeouts c).
Proof.
  unfold enterWaitingRoom.
  erewrite updateGameStage_available; [|reflexivity]. done.
Qed.

(** The presence after a guess depends on the latest guess only: the score,
    the board and the number of complete rows are computed afresh, not
    accumulated, and the stage, the name and the finish time of an available
    presence are left alone. *)
Theorem onLettersGuessed_last_wins
    (ls ls' : list (string * LetterState)) (lb lb' : list (list Tile))
    (c : Client) :
  onLettersGuessed ls lb (onLettersGuessed ls' lb' c) = onLettersGuessed ls lb c
  ∧ gameState (onLettersGuessed ls lb c) = gameState c
  ∧ (∀ me, myPresence c = Some me →
       ∃ me', myPresence (onLettersGuessed ls lb c) = Some me'
         ∧ (name me', stage me', timeFinished me')
           = (name me, stage me, timeFinished me)).
Proof.
  split; [|split; [done|]].
  - unfold onLettersGuessed, updateMyPresence. simpl.
    by destruct (myPresence c) as [[]|].
  - intros me Hme. unfold onLettersGuessed, updateMyPresence. rewrite Hme.
    eexists. split; [reflexivity|]. by destruct me.
Qed.






Lemma guessedRows_le (lb : list (list Tile)) :
  (guessedRows lb ≤ length lb)%nat.
Proof. unfold guessedRows. apply length_filter. Qed.

Lemma guessedRows_all (lb : list (list Tile)) :
  guessedRows lb = length lb ↔ Forall (Forall (λ t, state t ≠ INITIAL)) lb.
Proof.
  unfold guessedRows. induction lb as [|row lb IH]; [done|].
  rewrite filter_cons, Forall_cons.
  pose proof (length_filter (λ row, Forall (λ t, state t ≠ INITIAL) row) lb).
  destruct (decide (Forall (λ t, state t ≠ INITIAL) row)); simpl.
  - rewrite <- IH. split; [intros ?; split; [done|lia] | intros [_ ?]; lia].
  - split; [lia | by intros [? _]].
Qed.

(** [rowsComplete] never exceeds the number of rows of the board, it equals
    it exactly when no tile of the board is in state INITIAL, and a row
    without tiles counts as complete. *)
Theorem rowsComplete_bounds
    (ls : list (string * LetterState)) (lb : list (list Tile)) (c : Client) :
  ∃ me n,
    myPresence (onLettersGuessed ls lb c) = Some me
    ∧ rowsComplete me = Some n
    ∧ n = countRows lb
    ∧ (n ≤ length lb)%nat
    ∧ (n = length lb ↔ Forall (Forall (λ t, state t ≠ INITIAL)) lb)
    ∧ countRows (lb ++ [[]]) = n + 1.
Proof.
  eexists _, (countRows lb). split; [reflexivity|]. split; [reflexivity|].
  split; [done|]. unfold countRows. rewrite !countRows_from. simpl.
  split; [apply guessedRows_le|]. split; [apply guessedRows_all|].
  unfold guessedRows. by rewrite filter_app, length_app.
Qed.

(** ** [onGameComplete] when something is missing *)

(** Without [savedScores.value] [onGameComplete] does nothing.  When the
    scores list itself is not there yet, it throws after the stage and the
    finish time have been written and before anything is pushed.  When the
    local presence is unavailable a win throws at once. *)
Theorem onGameComplete_unavailable
    (answer : string) (answerDay : nat)
    (sortUsers : list Presence → list Presence)
    (success : bool) (successGrid : option string) (now : Z) (c : Client) :
  (savedScores c = None →
     onGameComplete answer answerDay sortUsers success successGrid now c
     = Done c)
  ∧ (∀ me, savedScores c = Some None → myPresence c = Some me →
       ∃ c' me',
         onGameComplete answer answerDay sortUsers success successGrid now c
         = Throw c'
         ∧ gameState c' = COMPLETE ∧ myPresence c' = Some me'
         ∧ stage me' = Some COMPLETE ∧ timeFinished me' = Some (Millis now)
         ∧ savedScores c' = Some None ∧ emojiScore c' = emojiScore c)
  ∧ (savedScores c ≠ None → myPresence c = None → success = true →
       onGameComplete answer answerDay sortUsers success successGrid now c
       = Throw c).
Proof.
  unfold onGameComplete. split; [by intros ->|]. split.
  - intros me Hsc Hme. rewrite Hsc, (updateGameStage_available _ _ _ Hme).
    destruct success; cbn -[mergePresence];
      eexists _, _; (split; [reflexivity|]); simpl; by rewrite Hsc.
  - intros Hsc Hme ->. destruct (savedScores c) as [list|]; [|done].
    by rewrite (updateGameStage_unavailable _ _ Hme), Hme.
Qed.

(** ** The saved scores and the ranking *)

Lemma updateGameStage_savedScores (s : GameState) (c : Client) :
  savedScores (updateGameStage s c) = savedScores c.
Proof. unfold updateGameStage. by destruct (myPresence c). Qed.

(** The client never removes or rewrites a saved score: every step other
    than the delivery of a new list by the service leaves the list as it is,
    except that [onGameComplete] may add one entry at its end. *)
Theorem scores_only_appended
    (answer : string) (answerDay : nat)
    (sortUsers : list Presence → list Presence) (e : Event) (c : Client) :
  (∀ s, e ≠ ScoresChanged s) →
  savedScores (stateOf (handle answer answerDay sortUsers e c)) = savedScores c
  ∨ ∃ l p success successGrid now,
      e = GameComplete success successGrid now
      ∧ savedScores c = Some (Some l)
      ∧ savedScores (stateOf (handle answer answerDay sortUsers e c))
        = Some (Some (l ++ [p])).
Proof.
  intros He.
  destruct e as [ | |o|s| | | | | |success grid now|i];
    cbn [handle stateOf].
  - left. unfold watchEffect, gameEvents.
    repeat case_match; simpl; by rewrite ?updateGameStage_savedScores.
  - by left.
  - by left.
  - by destruct (He s).
  - by left.
  - left. unfold enterWaitingRoom. by rewrite updateGameStage_savedScores.
  - left. apply updateGameStage_savedScores.
  - left. apply updateGameStage_savedScores.
  - by left.
  - unfold onGameComplete.
    destruct (savedScores c) as [[l|]|] eqn:Hsc; [|left|by left].
    + destruct success.
      * destruct (myPresence (updateGameStage COMPLETE c)) as [me|] eqn:Hme.
        -- right. eexists l, _, true, grid, now. by repeat split.
        -- left. simpl. by rewrite updateGameStage_savedScores.
      * right. eexists l, _, false, grid, now. by repeat split.
    + destruct success; [destruct (myPresence (updateGameStage COMPLETE c))|];
        simpl; by rewrite updateGameStage_savedScores.
  - left. destruct (timeouts c !! i) as [[]|]; simpl; [|done|done].
    by rewrite updateGameStage_savedScores.
Qed.

Lemma filter_hasScore (l : list Presence) :
  List.filter hasScore l = filter (λ o, is_Some (score o)) l.
Proof.
  induction l as [|o l IH]; [done|]. rewrite filter_cons. simpl.
  unfold hasScore at 1. case_bool_decide.
  - rewrite decide_True by done. by rewrite IH.
  - by rewrite decide_False by done.
Qed.

(** When [sortUsers] only reorders its argument, the ranking holds exactly
    the users with a score among the others and the local player, each one
    once; and with the local presence unavailable the ranking is empty even
    if others have scores. *)
Theorem sortedUsers_ranks (sortUsers : list Presence → list Presence)
    (c : Client) :
  (∀ l, sortUsers l ≡ₚ l) →
  (myPresence c = None → sortedUsers sortUsers c = [])
  ∧ (∀ me, myPresence c = Some me →
       sortedUsers sortUsers c
       ≡ₚ filter (λ o, is_Some (score o)) (othersPresence c)
          ++ (if hasScore me then [me] else [])).
Proof.
  intros Hperm. unfold sortedUsers. split; [by intros ->|].
  intros me ->. rewrite Hperm, filter_hasScore, filter_app.
  apply Permutation_app_head. rewrite filter_cons. unfold hasScore.
  case_bool_decide; [by rewrite decide_True | by rewrite decide_False].
Qed.

(** ** The two sides of the screen *)

Lemma filterFrom_sublist {A} (f : A → nat → bool) (i : nat) (l : list A) :
  filterFrom f i l `sublist_of` l.
Proof.
  revert i. induction l as [|x l IH]; intros i; simpl; [done|].
  destruct (f x i); [by apply sublist_skip | by apply sublist_cons].
Qed.

(** Each side of the screen shows its presences in the order of the others,
    and shows nothing that is not a presence of the others. *)
Theorem othersFilterOdd_keeps_order (odd : bool) (c : Client) :
  othersFilterOdd odd c `sublist_of` othersPresence c.
Proof. apply filterFrom_sublist. Qed.

Lemma oddSide_shift (odd : bool) (o : Presence) (i : nat) :
  oddSide odd o (S i) = oddSide (negb odd) o i.
Proof.
  unfold oddSide. f_equal. apply bool_decide_ext.
  replace (S i) with (1 + i) by done.
  rewrite Nat.Div0.add_mod by done.
  pose proof (Nat.mod_upper_bound i 2 ltac:(done)) as Hi.
  destruct odd; destruct (i mod 2) as [|[|?]]; simpl; lia.
Qed.

Lemma filterFrom_shift (odd : bool) (i : nat) (l : list Presence) :
  filterFrom (oddSide odd) (S i) l = filterFrom (oddSide (negb odd)) i l.
Proof.
  revert i. induction l as [|o l IH]; intros i; [done|]. simpl.
  by rewrite oddSide_shift, IH.
Qed.

Lemma sides_balanced (l : list Presence) :
  allScored l →
  (length (filterFrom (oddSide true) 0 l)
   ≤ length (filterFrom (oddSide false) 0 l)
   ≤ length (filterFrom (oddSide true) 0 l) + 1)%nat
  ∧ length (filterFrom (oddSide true) 0 l)
    + length (filterFrom (oddSide false) 0 l) = length l.
Proof.
  unfold allScored. induction 1 as [|o l Ho Hl IH]; [simpl; lia|].
  assert (Hodd : oddSide true o 0 = false).
  { unfold oddSide. by rewrite andb_false_r. }
  assert (Heven : oddSide false o 0 = true).
  { unfold oddSide, hasScore. by rewrite bool_decide_eq_true_2 by done. }
  cbn [filterFrom]. rewrite Hodd, Heven.
  rewrite (filterFrom_shift true 0), (filterFrom_shift false 0).
  cbn [negb length]. lia.
Qed.

(** When every other presence has a score the two sides are balanced: the
    side of the even positions shows as many boards as the other side, or
    one more, and together they show all the others. *)
Theorem othersFilterOdd_balanced (c : Client) :
  allScored (othersPresence c) →
  (length (othersFilterOdd true c) ≤ length (othersFilterOdd false c)
   ≤ length (othersFilterOdd true c) + 1)%nat
  ∧ length (othersFilterOdd true c) + length (othersFilterOdd false c)
    = length (othersPresence c).
Proof. apply sides_balanced. Qed.

(** ** The mini board *)

Lemma revealedRows_guessedRows (b : list (list Tile)) :
  revealedRows b = guessedRows b.
Proof.
  unfold revealedRows, guessedRows. induction b as [|row b IH]; [done|].
  rewrite !filter_cons.
  destruct (decide (forallb revealed row = true)) as [Hr|Hr].
  - rewrite decide_True by (by apply rowGuessed_Forall). simpl. by rewrite IH.
  - rewrite decide_False; [done|]. intros HF. by apply rowGuessed_Forall in HF.
Qed.


(** A player who has just entered the waiting room is drawn with the empty
    board: six rows, each as long as the answer, with no tile revealed. *)
Theorem miniBoard_after_entering (answerLength : option nat) (c : Client) :
  (currentBoard answerLength <$> myPresence (enterWaitingRoom c))
  = Some (Some (emptyBoard answerLength))
  ∧ length (emptyBoard answerLength) = 6
  ∧ Forall (λ row, length row = default 0 answerLength
                   ∧ Forall (λ t, revealed t = false) row)
           (emptyBoard answerLength).
Proof.
  split.
  { by rewrite enterWaitingRoom_myPresence. }
  split; [done|]. unfold emptyBoard. apply Forall_replicate.
  split; [apply length_replicate|]. by apply Forall_replicate.
Qed.

(** After a guess on a board with at least one row, the mini board shows
    that very board, and the rows it shows fully revealed are as many as the
    [rowsComplete] of the presence. *)
Theorem miniBoard_after_guess (answerLength : option nat)
    (ls : list (string * LetterState)) (lb : list (list Tile)) (c : Client) :
  lb ≠ [] →
  ∃ me,
    myPresence (onLettersGuessed ls lb c) = Some me
    ∧ currentBoard answerLength me = Some lb
    ∧ rowsComplete me = Some (revealedRows lb).
Proof.
  intros Hlb. eexists. split; [reflexivity|]. split.
  - unfold currentBoard. simpl. by destruct lb.
  - simpl. f_equal. unfold countRows. rewrite countRows_from.
    by rewrite revealedRows_guessedRows.
Qed.

(** ** The panels *)

(** In every stage the template renders exactly one panel. *)
Theorem one_panel_per_stage (s : GameState) :
  length (panels s) = 1
  ∧ (PlayingPanel ∈ panels s ↔ s = PLAYING ∨ s = COMPLETE)
  ∧ (WaitingPanel ∈ panels s ↔ s = WAITING ∨ s = READY).
Proof.
  destruct s; (split; [done|]); split; split;
    try (intros [?|?]; done); try (intros ?%list_elem_of_singleton; done);
    intros _; first [by left | by right | apply list_elem_of_here].
Qed.

(** * The further properties at concrete games *)

(** Ada connected with scores saved: the CONNECTING event moves her on. *)
Lemma connecting_event_iff_witness :
  gameState connectingWithScores = CONNECTING
  ∧ gameState (stateOf (watchEffect connectingWithScores)) = INTRO.
Proof.
  split; [reflexivity|].
  destruct (connecting_event_iff connectingWithScores eq_refl) as (Hiff & _).
  apply Hiff. split; [by eexists | by eexists].
Defined.

(** Ada in INTRO with scores saved: the INTRO event shows them. *)
Lemma intro_event_iff_witness :
  (gameState introWithScores = INTRO ∧ is_Some (myPresence introWithScores))
  ∧ gameState (stateOf (watchEffect introWithScores)) = SCORES.
Proof.
  assert (Hme : is_Some (myPresence introWithScores)) by (by eexists).
  split; [by split|].
  destruct (intro_event_iff introWithScores eq_refl Hme) as (Hiff & _).
  apply Hiff. by eexists _, _.
Defined.

(** Ada connects late and ends at the scores. *)
Lemma late_joiner_sees_scores_witness :
  (gameState connectingWithScores = CONNECTING
   ∧ myPresence connectingWithScores = Some emptyPresence
   ∧ savedScores connectingWithScores
     = Some (Some [playerAt "bob" COMPLETE 5 (Millis 1000)]))
  ∧ ∃ c1 c2,
      watchEffect connectingWithScores = Done c1 ∧ gameState c1 = INTRO
      ∧ watchEffect c1 = Done c2 ∧ gameState c2 = SCORES
      ∧ myPresence c2 = Some (mergePresence emptyPresence (stagePatch SCORES))
      ∧ savedScores c2 = savedScores connectingWithScores
      ∧ others c2 = others connectingWithScores.
Proof.
  split; [by repeat split|].
  exact (late_joiner_sees_scores connectingWithScores emptyPresence
           (playerAt "bob" COMPLETE 5 (Millis 1000)) []
           eq_refl eq_refl eq_refl).
Defined.

(** Bob at the scores, Ada in COMPLETE: SCORES is the only stage visited. *)
Lemma allInStages_exact_witness :
  myPresence bobAtScores = Some (playerAt "ada" COMPLETE 5 (Millis 1000))
  ∧ visited (connectedOthers bobAtScores) [SCORES; COMPLETE; WAITING] = [SCORES]
  ∧ allInStages [SCORES; COMPLETE; WAITING] bobAtScores
    = Some (bool_decide (connectedOthers bobAtScores ≠ [])
            && existsb (λ s, othersAllIn s bobAtScores)
                 [SCORES; COMPLETE; WAITING]
            && userInStages
                 (visited (connectedOthers bobAtScores)
                    [SCORES; COMPLETE; WAITING])
                 (Some (playerAt "ada" COMPLETE 5 (Millis 1000)))).
Proof.
  split; [reflexivity|]. split; [reflexivity|].
  exact (allInStages_exact [SCORES; COMPLETE; WAITING] bobAtScores
           (playerAt "ada" COMPLETE 5 (Millis 1000)) eq_refl).
Defined.

(** A newcomer without a presence keeps Ada from starting. *)
Lemma allInStages_blocked_witness :
  (myPresence readyWithNewcomer = Some (playerAt "ada" READY 0 Infinity)
   ∧ {| presence := None |} ∈ connectedOthers readyWithNewcomer)
  ∧ allInStages [READY; PLAYING] readyWithNewcomer = Some false.
Proof.
  assert (Hin : {| presence := None |} ∈ connectedOthers readyWithNewcomer).
  { apply list_elem_of_here. }
  split; [by split|].
  exact (allInStages_blocked [READY; PLAYING] readyWithNewcomer
           (playerAt "ada" READY 0 Infinity) {| presence := None |}
           eq_refl Hin eq_refl).
Defined.

(** Ada and Bob both ready: the start is armed. *)
Lemma ready_event_iff_witness :
  (gameState readyWithBob = READY
   ∧ myPresence readyWithBob = Some (playerAt "ada" READY 0 Infinity)
   ∧ stage (playerAt "ada" READY 0 Infinity) = Some READY)
  ∧ armsStart readyWithBob.
Proof.
  split; [by repeat split|].
  apply (ready_event_iff readyWithBob (playerAt "ada" READY 0 Infinity)
           eq_refl eq_refl eq_refl).
  split; [discriminate | left; reflexivity].
Defined.

(** Ada and Bob both finished: Ada moves to the scores; with Bob already at
    the scores she stays. *)
Lemma complete_event_iff_witness :
  (gameState completeWithBob = COMPLETE
   ∧ myPresence completeWithBob = Some (playerAt "ada" COMPLETE 0 (Millis 1000))
   ∧ stage (playerAt "ada" COMPLETE 0 (Millis 1000)) = Some COMPLETE)
  ∧ gameState (stateOf (watchEffect completeWithBob)) = SCORES
  ∧ watchEffect bobAtScores = Done bobAtScores.
Proof.
  split; [by repeat split|]. split.
  - apply (complete_event_iff completeWithBob
             (playerAt "ada" COMPLETE 0 (Millis 1000))
             eq_refl eq_refl eq_refl).
    split; [discriminate | left; reflexivity].
  - apply (complete_event_iff bobAtScores
             (playerAt "ada" COMPLETE 5 (Millis 1000))
             eq_refl eq_refl eq_refl); [discriminate | reflexivity].
Defined.

(** Ada un-readies after the start was armed, and plays all the same. *)
Lemma unready_does_not_cancel_start_witness :
  (gameState readyWithBob = READY
   ∧ myPresence readyWithBob = Some (playerAt "ada" READY 0 Infinity)
   ∧ stage (playerAt "ada" READY 0 Infinity) = Some READY
   ∧ armsStart readyWithBob)
  ∧ gameState
      (stateOf
         (handle exampleAnswer exampleDay exampleOrder
            (Fire (length (timeouts readyWithBob)))
            (stateOf
               (handle exampleAnswer exampleDay exampleOrder ClickUnready
                  (stateOf (watchEffect readyWithBob))))))
    = PLAYING.
Proof.
  assert (Harm : armsStart readyWithBob) by reflexivity.
  split; [by repeat split|].
  exact (proj1 (proj2 (proj2 (proj2
           (unready_does_not_cancel_start exampleAnswer exampleDay
              exampleOrder readyWithBob (playerAt "ada" READY 0 Infinity)
              eq_refl eq_refl eq_refl Harm))))).
Defined.

(** Ada alone gets ready and stays there. *)
Lemma lone_player_never_plays_witness :
  (forallb bringsNobody becomeReady = true
   ∧ run exampleAnswer exampleDay exampleOrder becomeReady
       (initialClient "ada") = Some loneReady)
  ∧ connectedOthers loneReady = []
  ∧ gameState loneReady ≠ PLAYING ∧ gameState loneReady ≠ COMPLETE.
Proof.
  split; [by split|].
  exact (lone_player_never_plays exampleAnswer exampleDay exampleOrder
           "ada" becomeReady loneReady eq_refl eq_refl).
Defined.

(** Ada at the scores: Bob getting ready does not move her. *)
Lemma scores_is_final_witness :
  (gameState atScores = SCORES ∧ (StartPlaying ∉ timeouts atScores)
   ∧ run exampleAnswer exampleDay exampleOrder
       [OthersChanged (Some [bobAt READY]); Watch] atScores
     = Some (setOthers (Some [bobAt READY]) atScores))
  ∧ gameState (setOthers (Some [bobAt READY]) atScores) = SCORES
  ∧ StartPlaying ∉ timeouts (setOthers (Some [bobAt READY]) atScores).
Proof.
  assert (Hno : StartPlaying ∉ timeouts atScores) by apply not_elem_of_nil.
  split; [by repeat split|].
  exact (scores_is_final exampleAnswer exampleDay exampleOrder
           [OthersChanged (Some [bobAt READY]); Watch] atScores _
           eq_refl Hno eq_refl).
Defined.

(** Ada alone and ready: stage and presence agree. *)
Lemma stage_in_sync_witness :
  run exampleAnswer exampleDay exampleOrder becomeReady (initialClient "ada")
  = Some loneReady
  ∧ (gameState loneReady = CONNECTING
     ∨ ∃ me, myPresence loneReady = Some me
             ∧ stage me = Some (gameState loneReady)).
Proof.
  split; [reflexivity|].
  exact (stage_in_sync exampleAnswer exampleDay exampleOrder "ada"
           becomeReady loneReady eq_refl).
Defined.

(** Ada guesses while playing with Bob: her stage stays. *)
Lemma onLettersGuessed_last_wins_witness :
  myPresence playingWithBob = Some (playerAt "ada" PLAYING 0 Infinity)
  ∧ ∃ me', myPresence (onLettersGuessed threeLetters oneRowGuessed
                         playingWithBob) = Some me'
      ∧ (name me', stage me', timeFinished me')
        = (Some "ada", Some PLAYING, Some Infinity).
Proof.
  split; [reflexivity|].
  exact (proj2 (proj2 (onLettersGuessed_last_wins threeLetters threeLetters
                         oneRowGuessed oneRowGuessed playingWithBob))
           _ eq_refl).
Defined.


(** Ada wins before the scores list is there, and a disconnected client. *)
Lemma onGameComplete_unavailable_witness :
  (savedScores disconnected = None
   ∧ savedScores playingWithoutList = Some None
   ∧ myPresence playingWithoutList = Some (playerAt "ada" PLAYING 0 Infinity))
  ∧ onGameComplete exampleAnswer exampleDay exampleOrder true None 1000
      disconnected = Done disconnected
  ∧ ∃ c', onGameComplete exampleAnswer exampleDay exampleOrder true None 1000
            playingWithoutList = Throw c'
          ∧ gameState c' = COMPLETE ∧ savedScores c' = Some None.
Proof.
  split; [by repeat split|]. split.
  - exact (proj1 (onGameComplete_unavailable exampleAnswer exampleDay
                    exampleOrder true None 1000 disconnected) eq_refl).
  - destruct (proj1 (proj2 (onGameComplete_unavailable exampleAnswer
                              exampleDay exampleOrder true None 1000
                              playingWithoutList)) _ eq_refl eq_refl)
      as (c' & me' & Hc' & Hg & _ & _ & _ & Hsc & _).
    exists c'. split; [exact Hc'|]. split; [exact Hg | exact Hsc].
Defined.

(** Ada gives up while playing with Bob: one entry is added. *)
Lemma scores_only_appended_witness :
  (∀ s, GameComplete false None 1000 ≠ ScoresChanged s)
  ∧ (savedScores
       (stateOf (handle exampleAnswer exampleDay exampleOrder
                   (GameComplete false None 1000) playingWithBob))
     = savedScores playingWithBob
     ∨ ∃ l p success successGrid now,
         GameComplete false None 1000 = GameComplete success successGrid now
         ∧ savedScores playingWithBob = Some (Some l)
         ∧ savedScores
             (stateOf (handle exampleAnswer exampleDay exampleOrder
                         (GameComplete false None 1000) playingWithBob))
           = Some (Some (l ++ [p]))).
Proof.
  assert (Hne : ∀ s, GameComplete false None 1000 ≠ ScoresChanged s)
    by discriminate.
  split; [exact Hne|].
  exact (scores_only_appended exampleAnswer exampleDay exampleOrder
           (GameComplete false None 1000) playingWithBob Hne).
Defined.

(** The ranking of Ada's game with Bob, in the order of the example. *)
Lemma sortedUsers_ranks_witness :
  (∀ l, exampleOrder l ≡ₚ l)
  ∧ sortedUsers exampleOrder disconnected = []
  ∧ sortedUsers exampleOrder playingWithBob
    ≡ₚ filter (λ o, is_Some (score o)) (othersPresence playingWithBob)
       ++ (if hasScore (playerAt "ada" PLAYING 0 Infinity)
           then [playerAt "ada" PLAYING 0 Infinity] else []).
Proof.
  assert (Hperm : ∀ l, exampleOrder l ≡ₚ l) by reflexivity.
  split; [exact Hperm|]. split.
  - exact (proj1 (sortedUsers_ranks exampleOrder disconnected Hperm) eq_refl).
  - exact (proj2 (sortedUsers_ranks exampleOrder playingWithBob Hperm)
             _ eq_refl).
Defined.

(** Bob alone on the even side. *)
Lemma othersFilterOdd_balanced_witness :
  allScored (othersPresence playingWithBob)
  ∧ (length (othersFilterOdd true playingWithBob)
     ≤ length (othersFilterOdd false playingWithBob)
     ≤ length (othersFilterOdd true playingWithBob) + 1)%nat
  ∧ length (othersFilterOdd true playingWithBob)
    + length (othersFilterOdd false playingWithBob)
    = length (othersPresence playingWithBob).
Proof.
  assert (Hall : allScored (othersPresence playingWithBob)).
  { repeat constructor. by eexists. }
  split; [exact Hall|].
  exact (othersFilterOdd_balanced playingWithBob Hall).
Defined.


(** The mini board after one guessed row. *)
Lemma miniBoard_after_guess_witness :
  oneRowGuessed ≠ []
  ∧ ∃ me,
      myPresence (onLettersGuessed threeLetters oneRowGuessed playingWithBob)
      = Some me
      ∧ currentBoard (Some 2) me = Some oneRowGuessed
      ∧ rowsComplete me = Some (revealedRows oneRowGuessed).
Proof.
  assert (Hne : oneRowGuessed ≠ []) by discriminate.
  split; [exact Hne|].
  exact (miniBoard_after_guess (Some 2) threeLetters oneRowGuessed
           playingWithBob Hne).
Defined.
